(** * resume-analyser: the resilient request pipeline of [src/server.ts]

    A shallow embedding of the retry loop [generateWithRetry] and of the
    [POST /api/analyze] handler, with the collaborators the handler talks to
    (the PDF text extractor, the generative model, the JavaScript engine's
    built-ins and the database) made explicit, followed by the properties of
    the pipeline.

    Conventions of the embedding:
    - a JavaScript string is a [list ascii]; one [ascii] stands for one
      UTF-16 code unit below 256 (the alphabet is Latin-1);
    - a JavaScript number is an exact rational [Q]; the values the pipeline
      computes with (the default back-off schedule 3000 * 1.5^k, scores) are
      exactly representable in binary64;
    - effects are threaded through a [World], which records the upstream
      round-trips, the timers awaited and the rows of the [analyses] table. *)

From Stdlib Require Import Ascii String ZArith NArith QArith Bool Lia Arith List.
From Equations Require Import Equations.
Import ListNotations.

Set Implicit Arguments.
Set Warnings "-register-all".
Close Scope Q_scope.
Local Open Scope nat_scope.
Local Open Scope list_scope.

(* ===================================================================== *)
(** ** JavaScript strings *)
(* ===================================================================== *)

Module JsString.

Definition t := list ascii.

(** A string literal of the source. *)
Definition lit (s : string) : t := list_ascii_of_string s.

(** [s.startsWith(p)] *)
Fixpoint startsWith (p s : t) : bool :=
  match p, s with
  | [], _ => true
  | _ :: _, [] => false
  | a :: p', b :: s' => Ascii.eqb a b && startsWith p' s'
  end.

(** [s.includes(p)] *)
Fixpoint includes (s p : t) : bool :=
  startsWith p s ||
  match s with
  | [] => false
  | _ :: s' => includes s' p
  end.

(** [s.substring(0, n)] for a natural [n] *)
Definition substring0 (n : nat) (s : t) : t := firstn n s.

Definition code (c : ascii) : N := N_of_ascii c.

(** White space of [String.prototype.trim] within the alphabet: TAB, LF,
    VT, FF, CR, SP and NBSP. *)
Definition is_white_space (c : ascii) : bool :=
  let n := code c in
  ((9 <=? n) && (n <=? 13) || (n =? 32) || (n =? 160))%N.

Fixpoint trimStart (s : t) : t :=
  match s with
  | [] => []
  | c :: s' => if is_white_space c then trimStart s' else s
  end.

Definition trimEnd (s : t) : t := rev (trimStart (rev s)).

(** [s.trim()] *)
Definition trim (s : t) : t := trimEnd (trimStart s).

(** [s.replace(/p/g, '')] for a literal, non-empty pattern [p0 :: p']:
    scanning from the left, every match is dropped and the scan resumes
    after it. *)
Equations remove_all (p0 : ascii) (p' : t) (s : t) : t by wf (length s) lt :=
  remove_all p0 p' [] := [];
  remove_all p0 p' (c :: s') with startsWith (p0 :: p') (c :: s') := {
    | true => remove_all p0 p' (skipn (length p') s')
    | false => c :: remove_all p0 p' s' }.
Next Obligation. rewrite length_skipn. lia. Qed.

(** [s.replace(/p/g, '')]; the empty pattern matches only empty strings, so
    nothing is removed. *)
Definition replace_g (p : t) (s : t) : t :=
  match p with
  | [] => s
  | p0 :: p' => remove_all p0 p' s
  end.

(** The last code unit of the pattern [p0 :: p']. *)
Definition pattern_last (p0 : ascii) (p' : t) : ascii := last p' p0.

(** The declarative reading of [includes]: [p] occurs somewhere in [s]. *)
Definition Occurs (p s : t) : Prop := exists l r, s = l ++ p ++ r.

End JsString.

Abbreviation jsstring := JsString.t.
Notation "'js' s" := (JsString.lit s) (at level 5, s at level 0, format "'js' s").

(* ===================================================================== *)
(** ** JSON values and [JSON.parse] *)
(* ===================================================================== *)

(** [JSON.parse] is a built-in of the engine; it is modelled after the JSON
    grammar (ECMA-404): a scanner that turns the text into tokens, one code
    unit at a time, and a pushdown recogniser that builds the value.  Numbers
    are kept as exact rationals in lowest terms; a [\u] escape that denotes
    a code unit outside the alphabet is refused.  An object is kept as the
    list of its members in the order of the text; where a key is repeated
    the object [JSON.parse] builds holds the last value, which is the one
    [lookup] reads. *)
Module Json.

Inductive value :=
| Null
| Bool (b : bool)
| Number (q : Q)
| String (s : jsstring)
| Array (elements : list value)
| Object (members : list (jsstring * value)).

Inductive token :=
| LBrace | RBrace | LBracket | RBracket | Colon | Comma
| TString (s : jsstring)
| TNumber (q : Q)
| TTrue | TFalse | TNull.

(** *** Character classes *)

Definition code := JsString.code.

(** JSON white space: TAB, LF, CR, SP. *)
Definition is_ws (c : ascii) : bool :=
  let n := code c in ((n =? 9) || (n =? 10) || (n =? 13) || (n =? 32))%N.

Definition is_digit (c : ascii) : bool :=
  let n := code c in ((48 <=? n) && (n <=? 57))%N.

Definition is_lower (c : ascii) : bool :=
  let n := code c in ((97 <=? n) && (n <=? 122))%N.

Definition is_control (c : ascii) : bool := (code c <? 32)%N.

(** The code units a number lexeme is made of. *)
Definition is_number_char (c : ascii) : bool :=
  let n := code c in
  (is_digit c || (n =? 43) || (n =? 45) || (n =? 46) || (n =? 69) || (n =? 101))%N.

Definition hex_value (c : ascii) : option N :=
  let n := code c in
  if is_digit c then Some (n - 48)%N
  else if ((65 <=? n) && (n <=? 70))%N then Some (n - 55)%N
  else if ((97 <=? n) && (n <=? 102))%N then Some (n - 87)%N
  else None.

(** *** Number lexemes *)

Fixpoint span_digits (s : jsstring) : jsstring * jsstring :=
  match s with
  | c :: s' =>
      if is_digit c
      then let (ds, rest) := span_digits s' in (c :: ds, rest)
      else ([], s)
  | [] => ([], [])
  end.

Fixpoint digits_value (acc : Z) (ds : jsstring) : Z :=
  match ds with
  | [] => acc
  | c :: ds' => digits_value (10 * acc + Z.of_N (code c - 48)) ds'
  end.

(** The integer part: a single 0, or digits that do not start with 0. *)
Definition int_part_ok (ds : jsstring) : bool :=
  match ds with
  | [] => false
  | [c] => true
  | c :: _ => negb (code c =? 48)%N
  end.

(** The fraction: absent, or a dot followed by at least one digit. *)
Definition read_fraction (s : jsstring) : option (jsstring * jsstring) :=
  match s with
  | c :: s' =>
      if (code c =? 46)%N
      then match span_digits s' with
           | ([], _) => None
           | (fs, rest) => Some (fs, rest)
           end
      else Some ([], s)
  | [] => Some ([], [])
  end.

(** The exponent: absent, or e/E, an optional sign and at least one digit,
    up to the end of the lexeme. *)
Definition read_exponent (s : jsstring) : option Z :=
  match s with
  | [] => Some 0%Z
  | c :: s' =>
      if ((code c =? 69) || (code c =? 101))%N
      then
        let (neg, s'') :=
          match s' with
          | d :: r =>
              if (code d =? 45)%N then (true, r)
              else if (code d =? 43)%N then (false, r)
              else (false, s')
          | [] => (false, s')
          end in
        match span_digits s'' with
        | ([], _) => None
        | (es, []) => let e := digits_value 0 es in
                      Some (if neg then (- e)%Z else e)
        | (_, _ :: _) => None
        end
      else None
  end.

Definition scale (m e : Z) : Q :=
  if (0 <=? e)%Z then Qred ((m * 10 ^ e) # 1)
  else Qred (m # Z.to_pos (10 ^ (- e))).

(** The value of a number lexeme, when it is one. *)
Definition number_of (lexeme : jsstring) : option Q :=
  let (neg, s) :=
    match lexeme with
    | c :: r => if (code c =? 45)%N then (true, r) else (false, lexeme)
    | [] => (false, lexeme)
    end in
  let (ip, s1) := span_digits s in
  if int_part_ok ip then
    match read_fraction s1 with
    | Some (fp, s2) =>
        match read_exponent s2 with
        | Some e =>
            let m := digits_value 0 (ip ++ fp) in
            Some (scale (if neg then (- m)%Z else m)
                        (e - Z.of_nat (length fp)))
        | None => None
        end
    | None => None
    end
  else None.

Definition word_of (w : jsstring) : option token :=
  if list_eq_dec ascii_dec w js"true" then Some TTrue
  else if list_eq_dec ascii_dec w js"false" then Some TFalse
  else if list_eq_dec ascii_dec w js"null" then Some TNull
  else None.

(** *** The scanner *)

Inductive mode :=
| Between                                   (* between two tokens *)
| InString (acc : jsstring)                 (* inside a string; [acc] reversed *)
| InEscape (acc : jsstring)                 (* after a backslash *)
| InUnicode (acc : jsstring) (hex : list N) (* after backslash-u; [hex] reversed *)
| InNumber (lexeme : jsstring)              (* inside a number; reversed *)
| InWord (letters : jsstring).              (* inside true/false/null; reversed *)

(** Tokens read so far (latest first) and the current mode. *)
Definition scanner := (list token * mode)%type.

Definition start : scanner := ([], Between).

Definition punctuation (c : ascii) : option token :=
  let n := code c in
  if (n =? 123)%N then Some LBrace
  else if (n =? 125)%N then Some RBrace
  else if (n =? 91)%N then Some LBracket
  else if (n =? 93)%N then Some RBracket
  else if (n =? 58)%N then Some Colon
  else if (n =? 44)%N then Some Comma
  else None.

Definition scan_between (toks : list token) (c : ascii) : option scanner :=
  if is_ws c then Some (toks, Between)
  else match punctuation c with
       | Some t => Some (t :: toks, Between)
       | None =>
           if (code c =? 34)%N then Some (toks, InString [])
           else if is_digit c || (code c =? 45)%N then Some (toks, InNumber [c])
           else if is_lower c then Some (toks, InWord [c])
           else None
       end.

Definition unescape (c : ascii) : option ascii :=
  let n := code c in
  if ((n =? 34) || (n =? 92) || (n =? 47))%N then Some c
  else if (n =? 98)%N then Some (ascii_of_N 8)
  else if (n =? 102)%N then Some (ascii_of_N 12)
  else if (n =? 110)%N then Some (ascii_of_N 10)
  else if (n =? 114)%N then Some (ascii_of_N 13)
  else if (n =? 116)%N then Some (ascii_of_N 9)
  else None.

Definition scan (sc : scanner) (c : ascii) : option scanner :=
  let (toks, m) := sc in
  match m with
  | Between => scan_between toks c
  | InString acc =>
      if (code c =? 34)%N then Some (TString (rev acc) :: toks, Between)
      else if (code c =? 92)%N then Some (toks, InEscape acc)
      else if is_control c then None
      else Some (toks, InString (c :: acc))
  | InEscape acc =>
      if (code c =? 117)%N then Some (toks, InUnicode acc [])
      else match unescape c with
           | Some d => Some (toks, InString (d :: acc))
           | None => None
           end
  | InUnicode acc hex =>
      match hex_value c with
      | None => None
      | Some h =>
          match hex with
          | [h2; h1; h0] =>
              let u := (((h0 * 16 + h1) * 16 + h2) * 16 + h)%N in
              if (u <? 256)%N then Some (toks, InString (ascii_of_N u :: acc))
              else None
          | _ => Some (toks, InUnicode acc (h :: hex))
          end
      end
  | InNumber lexeme =>
      if is_number_char c then Some (toks, InNumber (c :: lexeme))
      else match number_of (rev lexeme) with
           | Some q => scan_between (TNumber q :: toks) c
           | None => None
           end
  | InWord letters =>
      if is_lower c then Some (toks, InWord (c :: letters))
      else match word_of (rev letters) with
           | Some t => scan_between (t :: toks) c
           | None => None
           end
  end.

Fixpoint scan_all (sc : scanner) (s : jsstring) : option scanner :=
  match s with
  | [] => Some sc
  | c :: s' =>
      match scan sc c with
      | Some sc' => scan_all sc' s'
      | None => None
      end
  end.

(** At the end of the text a pending number or word is closed; a pending
    string is an error. *)
Definition scan_end (sc : scanner) : option (list token) :=
  let (toks, m) := sc in
  match m with
  | Between => Some (rev toks)
  | InNumber lexeme =>
      match number_of (rev lexeme) with
      | Some q => Some (rev (TNumber q :: toks))
      | None => None
      end
  | InWord letters =>
      match word_of (rev letters) with
      | Some t => Some (rev (t :: toks))
      | None => None
      end
  | _ => None
  end.

Definition finish (r : option scanner) : option (list token) :=
  match r with
  | Some sc => scan_end sc
  | None => None
  end.

Definition tokenize (s : jsstring) : option (list token) :=
  finish (scan_all start s).

(** *** The recogniser *)

(** An open container on the stack: an array or an object with the items
    read so far (latest first), or the key whose value is being read. *)
Inductive frame :=
| FArray (done : list value)
| FObject (done : list (jsstring * value))
| FMember (key : jsstring).

(** What may come next. *)
Inductive expect :=
| EValue              (* a value *)
| EValueOrEnd         (* just after an opening bracket: a value or the end *)
| EKeyOrEnd           (* just after an opening brace: a key or the end *)
| EKey                (* after a comma in an object *)
| EColon (key : jsstring)
| ESepOrEnd           (* after an item: a comma or the end of the container *)
| EDone (v : value).  (* the text is complete *)

Definition parser := (expect * list frame)%type.

(** A complete value goes to the innermost open container, or ends the text. *)
Definition deliver (v : value) (stack : list frame) : option parser :=
  match stack with
  | [] => Some (EDone v, [])
  | FArray done :: st => Some (ESepOrEnd, FArray (v :: done) :: st)
  | FMember k :: FObject done :: st =>
      Some (ESepOrEnd, FObject ((k, v) :: done) :: st)
  | _ => None
  end.

Definition begin_value (t : token) (stack : list frame) : option parser :=
  match t with
  | TNull => deliver Null stack
  | TTrue => deliver (Bool true) stack
  | TFalse => deliver (Bool false) stack
  | TNumber q => deliver (Number q) stack
  | TString s => deliver (String s) stack
  | LBracket => Some (EValueOrEnd, FArray [] :: stack)
  | LBrace => Some (EKeyOrEnd, FObject [] :: stack)
  | _ => None
  end.

Definition close_array (stack : list frame) : option parser :=
  match stack with
  | FArray done :: st => deliver (Array (rev done)) st
  | _ => None
  end.

Definition close_object (stack : list frame) : option parser :=
  match stack with
  | FObject done :: st => deliver (Object (rev done)) st
  | _ => None
  end.

Definition feed (ps : parser) (t : token) : option parser :=
  let (e, stack) := ps in
  match e, t with
  | EValue, _ => begin_value t stack
  | EValueOrEnd, RBracket => close_array stack
  | EValueOrEnd, _ => begin_value t stack
  | EKeyOrEnd, RBrace => close_object stack
  | EKeyOrEnd, TString k => Some (EColon k, stack)
  | EKey, TString k => Some (EColon k, stack)
  | EColon k, Colon => Some (EValue, FMember k :: stack)
  | ESepOrEnd, Comma =>
      match stack with
      | FArray _ :: _ => Some (EValue, stack)
      | FObject _ :: _ => Some (EKey, stack)
      | _ => None
      end
  | ESepOrEnd, RBracket => close_array stack
  | ESepOrEnd, RBrace => close_object stack
  | _, _ => None
  end.

Fixpoint feed_all (ps : parser) (ts : list token) : option parser :=
  match ts with
  | [] => Some ps
  | t :: ts' =>
      match feed ps t with
      | Some ps' => feed_all ps' ts'
      | None => None
      end
  end.

Definition parse_tokens (ts : list token) : option value :=
  match feed_all (EValue, []) ts with
  | Some (EDone v, _) => Some v
  | _ => None
  end.

(** [JSON.parse(text)]; [None] stands for the [SyntaxError] it throws. *)
Definition parse (text : jsstring) : option value :=
  match tokenize text with
  | Some ts => parse_tokens ts
  | None => None
  end.

(** *** Reading parsed values *)

(** The value of key [k] in an object: the last member so named wins. *)
Fixpoint lookup (k : jsstring) (ms : list (jsstring * value)) : option value :=
  match ms with
  | [] => None
  | (k', v) :: ms' =>
      match lookup k ms' with
      | Some v' => Some v'
      | None => if list_eq_dec ascii_dec k k' then Some v else None
      end
  end.

(** [Array.prototype.join(sep)]: [null] items print as the empty string,
    the others as [String(item)]; [num] is the engine's number printer. *)
Section Printing.
Variable num : Q -> jsstring.

Fixpoint to_string (v : value) : jsstring :=
  let item (x : value) : jsstring :=
    match x with Null => [] | _ => to_string x end in
  match v with
  | Null => js"null"
  | Bool true => js"true"
  | Bool false => js"false"
  | Number q => num q
  | String s => s
  | Array xs =>
      (fix commas (xs : list value) : jsstring :=
         match xs with
         | [] => []
         | [x] => item x
         | x :: rest => item x ++ js"," ++ commas rest
         end) xs
  | Object _ => js"[object Object]"
  end.

Definition item_string (x : value) : jsstring :=
  match x with Null => [] | _ => to_string x end.

Fixpoint join (sep : jsstring) (xs : list value) : jsstring :=
  match xs with
  | [] => []
  | [x] => item_string x
  | x :: rest => item_string x ++ sep ++ join sep rest
  end.
End Printing.

(** A number that is an integer between [lo] and [hi]. *)
Definition is_integer_in (lo hi : Z) (v : value) : bool :=
  match v with
  | Number q => (Qden q =? 1)%positive && (lo <=? Qnum q)%Z && (Qnum q <=? hi)%Z
  | _ => false
  end.

Definition is_string (v : value) : bool :=
  match v with String _ => true | _ => false end.

End Json.

(* ===================================================================== *)
(** ** The world the pipeline acts on *)
(* ===================================================================== *)

(** A thrown [Error]: only its [message] is ever inspected. *)
Record JsError := mkError { message : jsstring }.

(** What [model.generateContent] resolves to; [result.response.text()] is
    the only thing the handler reads from it. *)
Record GenerateContentResult := mkResult { response_text : jsstring }.

Inductive Upstream :=
| Resolved (r : GenerateContentResult)
| Rejected (e : JsError).

(** The model behind [model.generateContent(prompt)]: a deterministic stub,
    told how many round-trips were made before this one. *)
Definition Model := nat -> jsstring -> Upstream.

Module Retry.

(** The effects of [generateWithRetry]: upstream round-trips made and the
    delays (milliseconds) handed to [setTimeout], oldest first. *)
Record Effects := mkEffects {
  upstream_calls : nat;
  timers : list Q
}.

Definition call (w : Effects) : Effects :=
  {| upstream_calls := S (upstream_calls w); timers := timers w |}.

Definition sleep (d : Q) (w : Effects) : Effects :=
  {| upstream_calls := upstream_calls w; timers := timers w ++ [d] |}.

(** How a run of [generateWithRetry] ends, with the statement that ends it. *)
Inductive Outcome :=
| Returned (r : GenerateContentResult)   (* line 44: return result *)
| Rethrown (e : JsError)                 (* line 54: throw error   *)
| MaxCapacity.                           (* line 58: throw new Error(...) *)

Definition MAX_CAPACITY_MESSAGE : jsstring :=
  js"Gemini 2.5 is at max capacity. Please try again in 1 minute.".

(** Line 47. *)
Definition isBusy (e : JsError) : bool :=
  JsString.includes (message e) js"503" ||
  JsString.includes (message e) js"overloaded".

(** The [for] loop of lines 41-57.  [left] counts the iterations that the
    loop test [i < retries] still admits, [left = Z.to_nat (retries - i)];
    when none is left the loop is left for line 58.  The progress notice of
    line 50 goes to the console and is kept out of [Effects]. *)
Fixpoint attempts (gen : Model) (prompt : jsstring) (retries : Z)
         (left : nat) (i : Z) (delay : Q) (w : Effects) : Outcome * Effects :=
  match left with
  | O => (MaxCapacity, w)
  | S left' =>
      let w1 := call w in
      match gen (upstream_calls w) prompt with
      | Resolved r => (Returned r, w1)
      | Rejected e =>
          if isBusy e && (i <? retries - 1)%Z
          then attempts gen prompt retries left' (i + 1)%Z
                        (delay * (3 # 2))%Q (sleep delay w1)
          else (Rethrown e, w1)
      end
  end.

Definition DEFAULT_RETRIES : Z := 5.
Definition DEFAULT_DELAY : Q := 3000 # 1.

(** [generateWithRetry(prompt, retries = 5, delay = 3000)] *)
Definition generateWithRetry (gen : Model) (prompt : jsstring)
           (retries : Z) (delay : Q) (w : Effects) : Outcome * Effects :=
  attempts gen prompt retries (Z.to_nat retries) 0%Z delay w.

(** The exception the caller of [generateWithRetry] catches, if any. *)
Definition thrown (o : Outcome) : option JsError :=
  match o with
  | Returned _ => None
  | Rethrown e => Some e
  | MaxCapacity => Some (mkError MAX_CAPACITY_MESSAGE)
  end.

(** The back-off schedule: [n] waits, the first of [d] milliseconds, each
    next one 1.5 times the one before. *)
Fixpoint backoff (d : Q) (n : nat) : list Q :=
  match n with
  | O => []
  | S n' => d :: backoff (d * (3 # 2))%Q n'
  end.

(** Consecutive waits never shrink. *)
Fixpoint nondecreasing (l : list Q) : Prop :=
  match l with
  | a :: ((b :: _) as l') => (a <= b)%Q /\ nondecreasing l'
  | _ => True
  end.

(** The delay the loop holds after [k] back-offs. *)
Fixpoint grown (d : Q) (k : nat) : Q :=
  match k with
  | O => d
  | S k' => grown (d * (3 # 2))%Q k'
  end.

(** [busy_run gen prompt w k]: the [k] round-trips that follow [w] are all
    rejected with a retryable error. *)
Definition busy_run (gen : Model) (prompt : jsstring)
           (w : Effects) (k : nat) : Prop :=
  forall j, j < k ->
    exists e, gen (upstream_calls w + j) prompt = Rejected e /\ isBusy e = true.

(** The time spent waiting: the sum of the delays, in milliseconds. *)
Definition total (ws : list Q) : Q := fold_right Qplus (0 # 1)%Q ws.

(** What the call that ends a run makes of the run: a result is returned,
    an error is rethrown. *)
Definition settles (u : Upstream) : Outcome :=
  match u with
  | Resolved r => Returned r
  | Rejected e => Rethrown e
  end.

(** A stub that rejects every call with the same error. *)
Definition always_rejects (e : JsError) : Model := fun _ _ => Rejected e.

(** A stub that rejects the first [k] calls with [e] and then resolves. *)
Definition rejects_then_resolves (k : nat) (e : JsError)
           (r : GenerateContentResult) : Model :=
  fun n _ => if (n <? k)%nat then Rejected e else Resolved r.

(** The error the Gemini client raises on HTTP 503. *)
Definition SERVICE_UNAVAILABLE : JsError :=
  mkError js"[GoogleGenerativeAI Error]: Error fetching from https://generativelanguage.googleapis.com/v1beta/models/gemini-2.5-flash:generateContent: [503 Service Unavailable] The model is overloaded. Please try again later.".

(** An error of the client that is no overload. *)
Definition BAD_REQUEST : JsError :=
  mkError js"[GoogleGenerativeAI Error]: [400 Bad Request] API key not valid. Please pass a valid API key.".

Definition idle : Effects := mkEffects 0 [].

End Retry.

(* ===================================================================== *)
(** ** The [POST /api/analyze] handler *)
(* ===================================================================== *)

Module Server.

(** *** Requests, responses, storage *)

(** What multer hands over: [req.file] (absent when no part named
    [resume] was uploaded) and the text fields of [req.body]. *)
Record Request := mkRequest {
  file : option (list Byte.byte);
  jobDescription : option jsstring;
  jobTitle : option jsstring
}.

Inductive Body :=
| ErrorBody (error : jsstring)
| AnalysisBody (success : bool) (id : Z) (data : Json.value).

Record Response := mkResponse { status : Z; body : Body }.

(** A row of the [analyses] table; [None] is SQL NULL (the parameter was
    [undefined]).  The [timestamp] column is filled in by the database. *)
Record Row := mkRow {
  row_id : Z;
  job_title : jsstring;
  match_score : option Json.value;
  missing_skills : jsstring
}.

Record World := mkWorld {
  effects : Retry.Effects;
  analyses : list Row;
  next_id : Z
}.

(** The [TypeError]s line 122 can raise. *)
Inductive TypeErrorKind :=
| ReadScoreOfNull          (* analysis is null *)
| ReadJoinOfUndefined      (* analysis.missingKeywords is undefined *)
| ReadJoinOfNull           (* analysis.missingKeywords is null *)
| JoinIsNotAFunction.      (* analysis.missingKeywords is no array *)

(** The collaborators of the handler. *)
Record Env := mkEnv {
  (* new PDFParse({ data }).getText(), then .text *)
  pdf_text : list Byte.byte -> jsstring + JsError;
  (* model.generateContent *)
  model : Model;
  (* the SyntaxError JSON.parse throws on a given text *)
  syntax_error : jsstring -> JsError;
  (* the engine's TypeErrors *)
  type_error : TypeErrorKind -> JsError;
  (* Number.prototype.toString *)
  number_to_string : Q -> jsstring;
  (* the error of pool.query when the database refuses the INSERT *)
  insert_error : jsstring -> option Json.value -> jsstring -> option JsError
}.

(** *** Computations that act on the world and may throw *)

Definition M (A : Type) : Type := World -> (A + JsError) * World.

Definition ret {A} (a : A) : M A := fun w => (inl a, w).
Definition throw {A} (e : JsError) : M A := fun w => (inr e, w).
Definition bind {A B} (m : M A) (k : A -> M B) : M B :=
  fun w =>
    match m w with
    | (inl a, w') => k a w'
    | (inr e, w') => (inr e, w')
    end.

Notation "x <- m ;; k" := (bind m (fun x => k))
  (at level 61, m at next level, right associativity).

Definition lift {A} (r : A + JsError) : M A :=
  match r with inl a => ret a | inr e => throw e end.

(** *** The steps of the handler *)

(** [x] when truthy: a string that is present and not empty. *)
Definition truthy (x : option jsstring) : option jsstring :=
  match x with
  | Some (c :: s) => Some (c :: s)
  | _ => None
  end.

Definition nl : ascii := ascii_of_N 10.
Definition dq : ascii := ascii_of_N 34.
Definition indent : jsstring := js"            ".

Definition RESUME_LIMIT : nat := N.to_nat 25000.

(** The template literal of lines 100-111. *)
Definition build_prompt (resumeText jobDescription : jsstring) : jsstring :=
  [nl] ++ indent ++
  js"Act as an expert ATS. Compare the RESUME TEXT to the JOB DESCRIPTION."
  ++ [nl] ++ indent
  ++ [nl] ++ indent ++ js"RESUME:"
  ++ [nl] ++ indent ++ JsString.substring0 RESUME_LIMIT resumeText
                    ++ js" ... (truncated)"
  ++ [nl] ++ indent
  ++ [nl] ++ indent ++ js"JOB DESCRIPTION:"
  ++ [nl] ++ indent ++ jobDescription
  ++ [nl] ++ indent
  ++ [nl] ++ indent ++ js"OUTPUT JSON ONLY: { " ++ [dq] ++ js"score" ++ [dq]
                    ++ js": 0-100, " ++ [dq] ++ js"missingKeywords" ++ [dq]
                    ++ js": [" ++ [dq] ++ js"skill1" ++ [dq] ++ js"], "
                    ++ [dq] ++ js"advice" ++ [dq] ++ js": " ++ [dq]
                    ++ js"summary" ++ [dq] ++ js" }"
  ++ [nl] ++ indent ++ js"Do not use markdown."
  ++ [nl] ++ js"        ".

(** Line 114: [await generateWithRetry(prompt)], with the defaults. *)
Definition generateWithRetry (env : Env) (prompt : jsstring)
  : M GenerateContentResult :=
  fun w =>
    let (out, fx) :=
      Retry.generateWithRetry (model env) prompt
        Retry.DEFAULT_RETRIES Retry.DEFAULT_DELAY (effects w) in
    let w' := mkWorld fx (analyses w) (next_id w) in
    match out with
    | Retry.Returned r => (inl r, w')
    | Retry.Rethrown e => (inr e, w')
    | Retry.MaxCapacity => (inr (mkError Retry.MAX_CAPACITY_MESSAGE), w')
    end.

(** Line 117: the two [replace] calls. *)
Definition strip_fences (responseText : jsstring) : jsstring :=
  JsString.replace_g js"```" (JsString.replace_g js"```json" responseText).

(** The reply [j] inside a markdown code fence: the opening marker, white
    space (a line break, as a rule), the text, white space, the closing
    marker. *)
Definition tick : ascii := ascii_of_N 96.

Definition fenced (ws1 j ws2 : jsstring) : jsstring :=
  js"```json" ++ ws1 ++ j ++ ws2 ++ js"```".

(** The same inside a fence that names no language. *)
Definition bare_fenced (ws1 j ws2 : jsstring) : jsstring :=
  js"```" ++ ws1 ++ j ++ ws2 ++ js"```".

(** The environment [env] with another model behind it. *)
Definition with_model (env : Env) (m : Model) : Env :=
  mkEnv (pdf_text env) m (syntax_error env) (type_error env)
        (number_to_string env) (insert_error env).

(** Line 118. *)
Definition JSON_parse (env : Env) (text : jsstring) : M Json.value :=
  match Json.parse text with
  | Some v => ret v
  | None => throw (syntax_error env text)
  end.

(** Lines 115-118: from the response text to the parsed analysis. *)
Definition parse_response (responseText : jsstring) : option Json.value :=
  Json.parse (strip_fences (JsString.trim responseText)).

(** [analysis.score] *)
Definition get_score (env : Env) (analysis : Json.value)
  : M (option Json.value) :=
  match analysis with
  | Json.Null => throw (type_error env ReadScoreOfNull)
  | Json.Object ms => ret (Json.lookup js"score" ms)
  | _ => ret None
  end.

(** [analysis.missingKeywords.join(', ')] *)
Definition join_missingKeywords (env : Env) (analysis : Json.value)
  : M jsstring :=
  match analysis with
  | Json.Object ms =>
      match Json.lookup js"missingKeywords" ms with
      | None => throw (type_error env ReadJoinOfUndefined)
      | Some Json.Null => throw (type_error env ReadJoinOfNull)
      | Some (Json.Array xs) =>
          ret (Json.join (number_to_string env) js", " xs)
      | Some _ => throw (type_error env JoinIsNotAFunction)
      end
  | _ => throw (type_error env ReadJoinOfUndefined)
  end.

(** Lines 120-123: the INSERT; it answers with the new row's id. *)
Definition insert (env : Env) (title : jsstring)
           (score : option Json.value) (skills : jsstring) : M Z :=
  fun w =>
    match insert_error env title score skills with
    | Some e => (inr e, w)
    | None =>
        let id := next_id w in
        (inl id,
         mkWorld (effects w)
                 (analyses w ++ [mkRow id title score skills])
                 (id + 1)%Z)
    end.

Definition BAD_REQUEST : Response :=
  mkResponse 400 (ErrorBody js"Resume and JD required").
Definition OVERLOADED : Response :=
  mkResponse 503
    (ErrorBody js"Gemini 2.5 is overloaded. Please click 'Scan' again.").
Definition FAILED : Response :=
  mkResponse 500 (ErrorBody js"Analysis failed. See server logs.").

Definition title_or_default (jobTitle : option jsstring) : jsstring :=
  match truthy jobTitle with
  | Some t => t
  | None => js"Unknown Role"
  end.

(** The [try] block, lines 84-125. *)
Definition try_block (env : Env) (req : Request) : M Response :=
  match file req, truthy (jobDescription req) with
  | Some buffer, Some jd =>
      resumeText <- lift (pdf_text env buffer) ;;
      let prompt := build_prompt resumeText jd in
      result <- generateWithRetry env prompt ;;
      let responseText := JsString.trim (response_text result) in
      let cleanJson := strip_fences responseText in
      analysis <- JSON_parse env cleanJson ;;
      score <- get_score env analysis ;;
      skills <- join_missingKeywords env analysis ;;
      id <- insert env (title_or_default (jobTitle req)) score skills ;;
      ret (mkResponse 200 (AnalysisBody true id analysis))
  | _, _ => ret BAD_REQUEST
  end.

(** The [catch] block, lines 127-134. *)
Definition on_error (err : JsError) : Response :=
  if JsString.includes (message err) js"503" then OVERLOADED else FAILED.

(** The handler of [POST /api/analyze]. *)
Definition analyze (env : Env) (req : Request) (w : World)
  : Response * World :=
  match try_block env req w with
  | (inl res, w') => (res, w')
  | (inr err, w') => (on_error err, w')
  end.

(** The AnalysisResult the instruction asks the model for: an object with
    an integer [score] between 0 and 100 and an array of strings
    [missingKeywords]. *)
Definition well_formed_result (data : Json.value) : bool :=
  match data with
  | Json.Object ms =>
      match Json.lookup js"score" ms, Json.lookup js"missingKeywords" ms with
      | Some score, Some (Json.Array xs) =>
          Json.is_integer_in 0 100 score && forallb Json.is_string xs
      | _, _ => false
      end
  | _ => false
  end.

Definition missing_input (req : Request) : Prop :=
  file req = None \/ truthy (jobDescription req) = None.

(** A successful analysis: every step of the [try] block succeeded, the
    reply parsed to an object whose [missingKeywords] is an array, and one
    row was written. *)
Definition succeeded (env : Env) (req : Request) (w : World)
           (res : Response) (w' : World) : Prop :=
  exists buffer jd text r fx ms xs,
    file req = Some buffer /\
    truthy (jobDescription req) = Some jd /\
    pdf_text env buffer = inl text /\
    Retry.generateWithRetry (model env) (build_prompt text jd)
      Retry.DEFAULT_RETRIES Retry.DEFAULT_DELAY (effects w)
    = (Retry.Returned r, fx) /\
    parse_response (response_text r) = Some (Json.Object ms) /\
    Json.lookup js"missingKeywords" ms = Some (Json.Array xs) /\
    let title := title_or_default (jobTitle req) in
    let score := Json.lookup js"score" ms in
    let skills := Json.join (number_to_string env) js", " xs in
    insert_error env title score skills = None /\
    res = mkResponse 200 (AnalysisBody true (next_id w) (Json.Object ms)) /\
    w' = mkWorld fx (analyses w ++ [mkRow (next_id w) title score skills])
                 (next_id w + 1)%Z.

(** The shape of a run of the [try] block that completes: either the
    request lacked an input, or the analysis succeeded. *)
Definition completes (env : Env) (req : Request) (w : World)
           (res : Response) (w' : World) : Prop :=
  (missing_input req /\ res = BAD_REQUEST /\ w' = w) \/
  succeeded env req w res w'.

(** The shape of a run of the [try] block that throws: both inputs were
    there, and the table is as it was. *)
Definition throws (req : Request) (w : World)
           (e : JsError) (w' : World) : Prop :=
  ~ missing_input req /\ analyses w' = analyses w /\ next_id w' = next_id w.

End Server.

(* ===================================================================== *)
(** ** Stub collaborators *)
(* ===================================================================== *)

(** Deterministic stand-ins for the collaborators, for running the handler
    on concrete requests. *)
Module Stub.
Import Server.

(** JSON text written with ['] where the text has a double quote. *)
Definition json (s : string) : jsstring :=
  map (fun c => if (JsString.code c =? 39)%N then dq else c) (js s).

(** The extractor: an empty buffer is unreadable, any other buffer holds
    its text as it is. *)
Definition pdf_text (buffer : list Byte.byte) : jsstring + JsError :=
  match buffer with
  | [] => inr (mkError js"Invalid PDF structure.")
  | _ => inl (map ascii_of_byte buffer)
  end.

Definition pdf (text : string) : list Byte.byte :=
  map byte_of_ascii (js text).

(** The messages of V8's errors. *)
Definition syntax_error (text : jsstring) : JsError :=
  mkError js"Unexpected token in JSON at position 0".

Definition type_error (k : TypeErrorKind) : JsError :=
  match k with
  | ReadScoreOfNull =>
      mkError js"Cannot read properties of null (reading 'score')"
  | ReadJoinOfUndefined =>
      mkError js"Cannot read properties of undefined (reading 'join')"
  | ReadJoinOfNull =>
      mkError js"Cannot read properties of null (reading 'join')"
  | JoinIsNotAFunction =>
      mkError js"analysis.missingKeywords.join is not a function"
  end.

Fixpoint decimal_digits (fuel : nat) (n : N) (acc : jsstring) : jsstring :=
  match fuel with
  | O => acc
  | S fuel' =>
      let acc' := ascii_of_N (48 + n mod 10) :: acc in
      if (n <? 10)%N then acc' else decimal_digits fuel' (n / 10)%N acc'
  end.

Definition decimal (z : Z) : jsstring :=
  let n := Z.abs_N z in
  let ds := decimal_digits (S (N.to_nat (N.log2 n))) n [] in
  if (z <? 0)%Z then js"-" ++ ds else ds.

(** Exact on integers, the only numbers the examples print. *)
Definition number_to_string (q : Q) : jsstring :=
  if (Qden q =? 1)%positive then decimal (Qnum q)
  else decimal (Qnum q) ++ js"/" ++ decimal (Zpos (Qden q)).

(** The INTEGER column [match_score] takes NULL and the integers of 32
    bits; the database refuses any other parameter. *)
Definition insert_error (title : jsstring) (score : option Json.value)
           (skills : jsstring) : option JsError :=
  match score with
  | None | Some Json.Null => None
  | Some v =>
      if Json.is_integer_in (-2147483648) 2147483647 v then None
      else Some (mkError js"invalid input syntax for type integer")
  end.

(** The stub environment around a given model. *)
Definition env (m : Model) : Env :=
  mkEnv pdf_text m syntax_error type_error number_to_string insert_error.

(** A model that answers every prompt with the same text. *)
Definition answers (text : jsstring) : Model :=
  fun _ _ => Resolved (mkResult text).


Definition fresh : World := mkWorld Retry.idle [] 1.

(** Replies of the model. *)
Definition GOOD_REPLY : jsstring :=
  json "{'score': 85, 'missingKeywords': ['Go', 'Rust'], 'advice': 'Learn Go.'}".

Definition FENCED_REPLY : jsstring := fenced [nl] GOOD_REPLY [nl].

Definition OUT_OF_RANGE_REPLY : jsstring :=
  json "{'score': 150, 'missingKeywords': [1, null], 'advice': 'n/a'}".



(** An overload reported without a status code. *)
Definition OVERLOADED_NO_CODE : JsError :=
  mkError js"The model is overloaded. Please try again later.".

Definition request (document : string) (jd : string) : Request :=
  mkRequest (Some (pdf document)) (Some (js jd)) None.

End Stub.

(* ===================================================================== *)
(** * Properties *)
(* ===================================================================== *)

Section StringFacts.
Import JsString.

Lemma startsWith_app (p r : t) : startsWith p (p ++ r) = true.
Proof.
  induction p as [|a p IH]; simpl; [reflexivity|].
  now rewrite Ascii.eqb_refl, IH.
Qed.

Lemma startsWith_inv (p s : t) :
  startsWith p s = true -> exists r, s = p ++ r.
Proof.
  revert s; induction p as [|a p IH]; intros s H.
  - now exists s.
  - destruct s as [|b s]; simpl in H; [discriminate|].
    apply andb_prop in H as [Hab Hps].
    apply Ascii.eqb_eq in Hab; subst b.
    destruct (IH _ Hps) as [r ->]. now exists r.
Qed.

Lemma includes_here (s p : t) :
  startsWith p s = true -> includes s p = true.
Proof. intros H. destruct s; simpl; rewrite H; reflexivity. Qed.

Lemma includes_Occurs (s p : t) : includes s p = true <-> Occurs p s.
Proof.
  split.
  - induction s as [|c s IH]; simpl; intros H.
    + rewrite orb_false_r in H. apply startsWith_inv in H as [r Hr].
      now exists [], r.
    + apply orb_prop in H as [H|H].
      * apply startsWith_inv in H as [r Hr]. now exists [], r.
      * destruct (IH H) as (l & r & ->). now exists (c :: l), r.
  - intros (l & r & ->). induction l as [|c l IH]; simpl.
    + apply includes_here, startsWith_app.
    + rewrite IH. apply orb_true_r.
Qed.

Lemma startsWith_nil (p : t) : startsWith p [] = true -> p = [].
Proof. destruct p; [reflexivity | discriminate]. Qed.

(** A match that starts in [s] and is found in [s ++ u] either lies in [s]
    or runs over the end of [s] into [u]. *)
Lemma startsWith_app_inv (p : t) :
  forall s u : t,
    startsWith p (s ++ u) = true ->
    startsWith p s = true \/
    exists u1 u2, u1 <> [] /\ p = s ++ u1 /\ u = u1 ++ u2.
Proof.
  induction p as [|a p IH]; intros s u H; [now left|].
  destruct s as [|b s].
  - right. apply startsWith_inv in H as [r Hr].
    exists (a :: p), r. repeat split; [discriminate | exact Hr].
  - simpl in H. apply andb_prop in H as [Hab Hps].
    apply Ascii.eqb_eq in Hab; subst b.
    destruct (IH s u Hps) as [Hl | (u1 & u2 & Hne & -> & ->)].
    + left. simpl. now rewrite Ascii.eqb_refl.
    + right. now exists u1, u2.
Qed.

Lemma startsWith_extend (p s u : t) :
  startsWith p s = true -> startsWith p (s ++ u) = true.
Proof.
  intros H. apply startsWith_inv in H as [r ->].
  rewrite <- app_assoc. apply startsWith_app.
Qed.

Lemma startsWith_length (p s : t) :
  startsWith p s = true -> length p <= length s.
Proof.
  intros H. apply startsWith_inv in H as [r ->]. rewrite length_app. lia.
Qed.

Section RemoveAll.

Variable p0 : ascii.
Variable p' : t.

Lemma remove_all_cons (c : ascii) (s : t) :
  remove_all p0 p' (c :: s) =
  if startsWith (p0 :: p') (c :: s)
  then remove_all p0 p' (skipn (length p') s)
  else c :: remove_all p0 p' s.
Proof.
  rewrite remove_all_equation_2.
  destruct (startsWith (p0 :: p') (c :: s)).
  - apply remove_all_clause_2_equation_1.
  - apply remove_all_clause_2_equation_2.
Qed.

(** A match at the very start is dropped. *)
Lemma remove_all_match (s : t) :
  remove_all p0 p' ((p0 :: p') ++ s) = remove_all p0 p' s.
Proof.
  change ((p0 :: p') ++ s) with (p0 :: (p' ++ s)).
  rewrite remove_all_cons.
  change (p0 :: p' ++ s) with ((p0 :: p') ++ s).
  rewrite startsWith_app.
  rewrite skipn_app, skipn_all, Nat.sub_diag. reflexivity.
Qed.

(** Code units other than the first of the pattern start no match. *)
Lemma remove_all_keep_prefix (u s : t) :
  Forall (fun c => c <> p0) u ->
  remove_all p0 p' (u ++ s) = u ++ remove_all p0 p' s.
Proof.
  induction 1 as [|c u Hc _ IH]; [reflexivity|].
  cbn [app]. rewrite remove_all_cons. cbn [startsWith].
  assert (E : Ascii.eqb p0 c = false) by (apply Ascii.eqb_neq; congruence).
  rewrite E. cbn [andb]. now rewrite IH.
Qed.


Abbreviation pattern_end := (pattern_last p0 p').

Lemma pattern_split : exists q, p0 :: p' = q ++ [pattern_end].
Proof.
  exists (removelast (p0 :: p')).
  rewrite (@app_removelast_last _ (p0 :: p') p0) at 1 by discriminate.
  f_equal. unfold pattern_last. destruct p'; reflexivity.
Qed.

(** A match that runs over the end of [s] into [u] ends in [u]. *)
Lemma overrun_ends_in (s u u1 u2 : t) :
  u1 <> [] -> p0 :: p' = s ++ u1 -> u = u1 ++ u2 -> In pattern_end u.
Proof.
  intros Hne Hp ->. destruct pattern_split as [q Hq].
  destruct (exists_last Hne) as (v & x & ->).
  rewrite Hq, app_assoc in Hp. apply app_inj_tail in Hp as [_ <-].
  apply in_or_app. left. apply in_or_app. right. now left.
Qed.

Lemma startsWith_in_suffix (s u : t) :
  ~ In pattern_end u ->
  startsWith (p0 :: p') (s ++ u) = startsWith (p0 :: p') s.
Proof.
  intros Hu. destruct (startsWith (p0 :: p') s) eqn:E.
  - now apply startsWith_extend.
  - destruct (startsWith (p0 :: p') (s ++ u)) eqn:E'; [|reflexivity].
    destruct (@startsWith_app_inv _ _ _ E') as [H | (u1 & u2 & Hne & Hp & Hu')].
    + congruence.
    + destruct Hu. eapply overrun_ends_in; eassumption.
Qed.

(** What follows the text is kept when it does not hold the last code unit
    of the pattern: no match reaches into it. *)
Lemma remove_all_keep_suffix (s u : t) :
  ~ In pattern_end u ->
  remove_all p0 p' (s ++ u) = remove_all p0 p' s ++ u.
Proof.
  intros Hu. funelim (remove_all p0 p' s).
  - (* s = [] *)
    cbn [app]. clear Heqcall.
    induction u as [|c u IH]; [apply remove_all_equation_1|].
    rewrite remove_all_cons.
    pose proof (@startsWith_in_suffix [] (c :: u) Hu) as E. cbn [app] in E.
    rewrite E. cbn [startsWith]. f_equal. apply IH.
    intros Hin. apply Hu. now right.
  - (* a match at the head of s *)
    cbn [app]. rewrite remove_all_cons.
    change (c :: s' ++ u) with ((c :: s') ++ u).
    rewrite (@startsWith_in_suffix (c :: s') u Hu), Heq.
    pose proof (@startsWith_length _ _ Heq) as Hlen. cbn [length] in Hlen.
    rewrite skipn_app.
    replace (length p' - length s') with 0 by lia. cbn [skipn].
    now apply H.
  - (* no match at the head of s *)
    cbn [app]. rewrite remove_all_cons.
    change (c :: s' ++ u) with ((c :: s') ++ u).
    rewrite (@startsWith_in_suffix (c :: s') u Hu), Heq.
    f_equal. now apply H.
Qed.

End RemoveAll.

(** For a pattern of three equal code units, a further match appended to
    the text is removed and leaves the rest of the result as it was. *)
Lemma remove_all_single (b : ascii) : remove_all b [b; b] [b] = [b].
Proof.
  rewrite remove_all_cons. cbn [startsWith]. rewrite Ascii.eqb_refl.
  cbn [andb]. now rewrite remove_all_equation_1.
Qed.

Lemma remove_all_double (b : ascii) : remove_all b [b; b] [b; b] = [b; b].
Proof.
  rewrite remove_all_cons. cbn [startsWith]. rewrite !Ascii.eqb_refl.
  cbn [andb]. now rewrite remove_all_single.
Qed.

Lemma remove_all_triple_suffix (b : ascii) (s : t) :
  remove_all b [b; b] (s ++ [b; b; b]) = remove_all b [b; b] s.
Proof.
  remember (length s) as n eqn:Hn. revert s Hn.
  induction n as [n IH] using lt_wf_ind. intros s Hn.
  destruct s as [|c s'].
  - cbn [app]. rewrite <- (app_nil_r [b; b; b]). apply remove_all_match.
  - cbn [app]. rewrite !remove_all_cons.
    change (c :: s' ++ [b; b; b]) with ((c :: s') ++ [b; b; b]).
    destruct (startsWith [b; b; b] (c :: s')) eqn:E.
    + rewrite (@startsWith_extend _ _ [b; b; b] E).
      pose proof (@startsWith_length _ _ E) as Hlen. cbn [length] in Hlen, Hn |- *.
      rewrite skipn_app.
      replace (2 - length s') with 0 by lia. cbn [skipn app].
      apply (IH (length (skipn 2 s'))); [rewrite length_skipn; lia | reflexivity].
    + destruct (startsWith [b; b; b] ((c :: s') ++ [b; b; b])) eqn:E'.
      * destruct (@startsWith_app_inv _ _ _ E')
          as [H | (u1 & u2 & Hne & Hp & _)]; [congruence|].
        cbn [app] in Hp. injection Hp as <- Hp.
        destruct s' as [|c1 s']; [cbn [app skipn length]; apply remove_all_single|].
        cbn [app] in Hp. injection Hp as <- Hp.
        destruct s' as [|c2 s'];
          [cbn [app skipn length]; rewrite remove_all_double, remove_all_single;
           reflexivity|].
        cbn [app] in Hp. injection Hp as <- Hp.
        destruct s'; [|discriminate Hp]. cbn [app] in Hp. congruence.
      * f_equal. apply (IH (length s')); [cbn [length] in Hn; lia | reflexivity].
Qed.

(** *** [trim] *)

Lemma trimStart_split (s : t) :
  exists a, s = a ++ trimStart s /\ Forall (fun c => is_white_space c = true) a.
Proof.
  induction s as [|c s (a & Hs & Ha)]; [now exists []|].
  cbn [trimStart]. destruct (is_white_space c) eqn:E.
  - exists (c :: a). split; [cbn [app]; congruence | now constructor].
  - now exists [].
Qed.

Lemma trim_split (s : t) :
  exists a b,
    s = a ++ trim s ++ b /\
    Forall (fun c => is_white_space c = true) a /\
    Forall (fun c => is_white_space c = true) b.
Proof.
  destruct (trimStart_split s) as (a & Hs & Ha).
  destruct (trimStart_split (rev (trimStart s))) as (b & Hr & Hb).
  exists a, (rev b). split; [|split; [exact Ha | now apply Forall_rev]].
  unfold trim, trimEnd. rewrite <- rev_app_distr, <- Hr, rev_involutive.
  exact Hs.
Qed.

(** A text that neither starts nor ends with white space is its own trim. *)
Lemma trim_id (a z : ascii) (m : t) :
  is_white_space a = false -> is_white_space z = false ->
  trim (a :: m ++ [z]) = a :: m ++ [z].
Proof.
  intros Ha Hz. unfold trim, trimEnd. cbn [trimStart]. rewrite Ha.
  change (a :: m ++ [z]) with ((a :: m) ++ [z]).
  rewrite rev_app_distr. cbn [rev app trimStart]. rewrite Hz.
  cbn [rev]. rewrite rev_app_distr, rev_involutive. reflexivity.
Qed.

End StringFacts.

(* --------------------------------------------------------------------- *)
(** ** The retry loop *)
(* --------------------------------------------------------------------- *)

Section RetryFacts.
Import Retry.

Variable gen : Model.
Variable prompt : jsstring.
Variable retries : Z.

Lemma busy_run_tail (w : Effects) (d : Q) (k : nat) :
  busy_run gen prompt w (S k) -> busy_run gen prompt (sleep d (call w)) k.
Proof.
  intros H j Hj. destruct (H (S j)) as (e & He & Hb); [lia|].
  exists e. split; [|exact Hb]. simpl.
  now rewrite Nat.add_succ_r in He.
Qed.

(** Under the loop invariant, the loop test [i < retries] holds exactly
    when an iteration is left. *)
Lemma loop_test (left : nat) (i : Z) :
  (i + Z.of_nat left = retries)%Z ->
  (i <? retries)%Z = negb (Nat.eqb left 0).
Proof.
  intros H. destruct left; simpl.
  - apply Z.ltb_ge. lia.
  - apply Z.ltb_lt. lia.
Qed.

(** [k] retryable failures, with an attempt to spare, take the loop [k]
    iterations further: [k] calls, [k] waits. *)
Lemma attempts_busy_prefix (k : nat) :
  forall (left : nat) (i : Z) (d : Q) (w : Effects),
    (i + Z.of_nat left = retries)%Z ->
    (k < left)%nat ->
    busy_run gen prompt w k ->
    attempts gen prompt retries left i d w =
    attempts gen prompt retries (left - k) (i + Z.of_nat k)%Z (grown d k)
             (mkEffects (upstream_calls w + k) (timers w ++ backoff d k)).
Proof.
  induction k as [|k IH]; intros left i d w Hinv Hk Hbusy.
  - destruct w as [c ts]; simpl.
    now rewrite Nat.sub_0_r, Z.add_0_r, Nat.add_0_r, app_nil_r.
  - destruct left as [|left]; [lia|].
    destruct (Hbusy 0%nat) as (e & He & Hb); [lia|].
    rewrite Nat.add_0_r in He.
    cbn [attempts]. rewrite He, Hb.
    assert (Hlt : (i <? retries - 1)%Z = true) by (apply Z.ltb_lt; lia).
    rewrite Hlt. cbn [andb].
    rewrite (IH left (i + 1)%Z (d * (3 # 2))%Q (sleep d (call w)));
      [| lia | lia | now apply busy_run_tail].
    cbn [Nat.sub grown backoff sleep call upstream_calls timers].
    f_equal; [lia|].
    f_equal; [lia|]. now rewrite <- app_assoc.
Qed.

(** Every run makes at most [retries] round-trips. *)
Lemma attempts_calls_bound (left : nat) :
  forall (i : Z) (d : Q) (w : Effects),
    (upstream_calls w
     <= upstream_calls (snd (attempts gen prompt retries left i d w))
     <= upstream_calls w + left)%nat.
Proof.
  induction left as [|left IH]; intros i d w; cbn [attempts].
  - simpl. lia.
  - destruct (gen (upstream_calls w) prompt) as [r|e]; [simpl; lia|].
    destruct (isBusy e && (i <? retries - 1)%Z); [|simpl; lia].
    specialize (IH (i + 1)%Z (d * (3 # 2))%Q (sleep d (call w))).
    simpl in IH |- *. lia.
Qed.

Lemma generateWithRetry_calls_bound (d : Q) (w : Effects) :
  (Z.of_nat (upstream_calls (snd (generateWithRetry gen prompt retries d w)))
   <= Z.of_nat (upstream_calls w) + Z.max 0 retries)%Z.
Proof.
  unfold generateWithRetry.
  pose proof (attempts_calls_bound (Z.to_nat retries) 0%Z d w). lia.
Qed.

(** With an iteration left, the loop is never left for line 58. *)
Lemma attempts_not_MaxCapacity (left : nat) :
  forall (i : Z) (d : Q) (w : Effects),
    (i + Z.of_nat left = retries)%Z ->
    (1 <= left)%nat ->
    fst (attempts gen prompt retries left i d w) <> MaxCapacity.
Proof.
  induction left as [|left IH]; intros i d w Hinv Hleft; [lia|].
  cbn [attempts].
  destruct (gen (upstream_calls w) prompt) as [r|e]; [simpl; discriminate|].
  destruct (isBusy e) eqn:Hb; cbn [andb]; [|simpl; discriminate].
  destruct (i <? retries - 1)%Z eqn:Hlt; [|simpl; discriminate].
  apply Z.ltb_lt in Hlt. apply IH; lia.
Qed.

(** When every admitted attempt but the last is rejected with a retryable
    error, the error of the last attempt, whatever it is, is rethrown from
    inside the loop, after [retries] round-trips. *)
Lemma exhausted_rethrows_last (d : Q) (w : Effects) (e : JsError) :
  (1 <= retries)%Z ->
  busy_run gen prompt w (Z.to_nat retries - 1) ->
  gen (upstream_calls w + (Z.to_nat retries - 1)) prompt = Rejected e ->
  generateWithRetry gen prompt retries d w
  = (Rethrown e,
     mkEffects (upstream_calls w + Z.to_nat retries)
               (timers w ++ backoff d (Z.to_nat retries - 1))).
Proof.
  intros Hr Hbusy He. unfold generateWithRetry.
  rewrite (@attempts_busy_prefix (Z.to_nat retries - 1));
    [| lia | lia | exact Hbusy].
  replace (Z.to_nat retries - (Z.to_nat retries - 1)) with 1 by lia.
  cbn [attempts upstream_calls]. rewrite He.
  assert (Hlt : (0 + Z.of_nat (Z.to_nat retries - 1) <? retries - 1)%Z = false)
    by (apply Z.ltb_ge; lia).
  rewrite Hlt, andb_false_r.
  unfold call; cbn [upstream_calls timers]. do 2 f_equal. lia.
Qed.

Lemma backoff_length (d : Q) (n : nat) : length (backoff d n) = n.
Proof. revert d; induction n; intros d; simpl; congruence. Qed.

Lemma backoff_head (d d0 : Q) (n : nat) :
  hd_error (backoff d n) = Some d0 -> d0 = d.
Proof. destruct n; simpl; congruence. Qed.

Lemma backoff_ratio (n : nat) :
  forall (d : Q) (i : nat) (x y : Q),
    nth_error (backoff d n) i = Some x ->
    nth_error (backoff d n) (S i) = Some y ->
    y = (x * (3 # 2))%Q.
Proof.
  induction n as [|n IH]; intros d i x y Hx Hy.
  - destruct i; discriminate.
  - destruct i as [|i].
    + simpl in Hx. injection Hx as <-.
      destruct n; simpl in Hy; [discriminate|]. congruence.
    + simpl in Hx, Hy. exact (IH _ _ _ _ Hx Hy).
Qed.

Lemma grow_le (d : Q) : (0 <= d)%Q -> (d <= d * (3 # 2))%Q.
Proof.
  destruct d as [n p]. unfold Qle; simpl. intros H. nia.
Qed.

Lemma backoff_nondecreasing (n : nat) :
  forall d : Q, (0 <= d)%Q -> nondecreasing (backoff d n).
Proof.
  induction n as [|n IH]; intros d Hd; [exact I|].
  assert (Hd' : (0 <= d * (3 # 2))%Q)
    by (apply Qle_trans with d; [exact Hd | now apply grow_le]).
  specialize (IH _ Hd').
  destruct n; [exact I|]. split; [now apply grow_le | exact IH].
Qed.

End RetryFacts.

(* --------------------------------------------------------------------- *)
(** ** The shape of every run of the retry loop *)
(* --------------------------------------------------------------------- *)

Section RetryRuns.
Import Retry.

Variable gen : Model.
Variable prompt : jsstring.
Variable retries : Z.

Lemma busy_run_cons (w : Effects) (d : Q) (e : JsError) (k : nat) :
  gen (upstream_calls w) prompt = Rejected e ->
  isBusy e = true ->
  busy_run gen prompt (sleep d (call w)) k ->
  busy_run gen prompt w (S k).
Proof.
  intros He Hb H j Hj. destruct j as [|j].
  - exists e. now rewrite Nat.add_0_r.
  - destruct (H j) as (e' & He' & Hb'); [lia|].
    exists e'. split; [|exact Hb']. cbn [sleep call upstream_calls] in He'.
    now rewrite Nat.add_succ_r.
Qed.

(** Under the loop invariant every run of the loop that starts with an
    iteration to spare is [k] retried calls followed by the call that
    settles it, with [k] waits in between and none after. *)
Lemma attempts_shape (left : nat) :
  forall (i : Z) (d : Q) (w : Effects),
    (i + Z.of_nat left = retries)%Z ->
    1 <= left ->
    exists k,
      k < left /\
      busy_run gen prompt w k /\
      attempts gen prompt retries left i d w
      = (settles (gen (upstream_calls w + k) prompt),
         mkEffects (upstream_calls w + k + 1) (timers w ++ backoff d k)).
Proof.
  induction left as [|left IH]; intros i d w Hinv Hleft; [lia|].
  cbn [attempts].
  assert (Hzero :
            busy_run gen prompt w 0 /\
            call w = mkEffects (upstream_calls w + 0 + 1) (timers w ++ backoff d 0)).
  { split; [intros j Hj; lia|].
    unfold call. cbn [backoff]. rewrite app_nil_r. f_equal. lia. }
  destruct Hzero as [Hb0 Hw0].
  destruct (gen (upstream_calls w) prompt) as [r|e] eqn:Hg.
  - exists 0. rewrite Nat.add_0_r, Hg. cbn [settles].
    rewrite Nat.add_0_r in Hw0. rewrite Hw0. repeat split; [lia | exact Hb0].
  - destruct (isBusy e) eqn:Hbusy; cbn [andb].
    + destruct (i <? retries - 1)%Z eqn:Hlt.
      * apply Z.ltb_lt in Hlt.
        destruct (IH (i + 1)%Z (d * (3 # 2))%Q (sleep d (call w)))
          as (k & Hk & Hrun & Heq); [lia | lia |].
        exists (S k). split; [lia|]. split.
        { exact (@busy_run_cons w d e k Hg Hbusy Hrun). }
        rewrite Heq. cbn [sleep call upstream_calls timers backoff].
        rewrite <- app_assoc. cbn [app].
        replace (S (upstream_calls w) + k) with (upstream_calls w + S k) by lia.
        reflexivity.
      * exists 0. rewrite Nat.add_0_r, Hg. cbn [settles].
        rewrite Nat.add_0_r in Hw0. rewrite Hw0.
        repeat split; [lia | exact Hb0].
    + exists 0. rewrite Nat.add_0_r, Hg. cbn [settles].
      rewrite Nat.add_0_r in Hw0. rewrite Hw0.
      repeat split; [lia | exact Hb0].
Qed.

(** A result that is returned is the answer of the model to one of the
    calls of the run, the earlier ones having been rejected as retryable. *)
Lemma returned_is_an_answer (d : Q) (w : Effects)
      (r : GenerateContentResult) (fx : Effects) :
  generateWithRetry gen prompt retries d w = (Returned r, fx) ->
  exists k,
    (Z.of_nat k < retries)%Z /\
    busy_run gen prompt w k /\
    gen (upstream_calls w + k) prompt = Resolved r.
Proof.
  intros Hrun. unfold generateWithRetry in Hrun.
  destruct (Z.to_nat retries) as [|n] eqn:En; [discriminate Hrun|].
  destruct (@attempts_shape (S n) 0%Z d w) as (k & Hk & Hbusy & Heq);
    [lia | lia |].
  exists k. split; [lia|]. split; [exact Hbusy|].
  rewrite Heq in Hrun. injection Hrun as Hs _.
  destruct (gen (upstream_calls w + k) prompt) as [r'|e];
    cbn [settles] in Hs; congruence.
Qed.

End RetryRuns.

Section RetryClaims.
Import Retry.

(** C1 (the code departs from the claim).  The claim: after [retries]
  retryable failures [generateWithRetry] makes exactly [retries] calls and
  fails with the normalized max-capacity error of line 58.  On the code,
  with the defaults (5 attempts, 3000 ms) and a model that answers every
  call with the same 503 error: exactly 5 calls are made, 4 waits are
  awaited, and the run ends at line 54, rethrowing the raw upstream error;
  the error the caller catches is not the max-capacity one. *)
Theorem C1_exhausted_retries_rethrow_raw_error :
let run := generateWithRetry (always_rejects SERVICE_UNAVAILABLE)
             js"prompt" DEFAULT_RETRIES DEFAULT_DELAY idle in
isBusy SERVICE_UNAVAILABLE = true /\
fst run = Rethrown SERVICE_UNAVAILABLE /\
upstream_calls (snd run) = 5 /\
timers (snd run) = backoff DEFAULT_DELAY 4 /\
thrown (fst run) <> Some (mkError MAX_CAPACITY_MESSAGE).
Proof.
cbv zeta. repeat split; try (vm_compute; reflexivity).
vm_compute. discriminate.
Qed.

(** C2.  For every N with 1 <= N <= retries: when the first N-1 calls are
  rejected with a retryable error and call N resolves, [generateWithRetry]
  returns that result after exactly N round-trips; the N-1 waits awaited
  start at [delay], each next wait is the previous one times 1.5, and for
  a non-negative [delay] the waits never shrink. *)
Theorem C2_success_on_attempt_N
  (gen : Model) (prompt : jsstring) (retries : Z) (delay : Q)
  (w : Effects) (N : nat) (r : GenerateContentResult) :
1 <= N ->
(Z.of_nat N <= retries)%Z ->
busy_run gen prompt w (N - 1) ->
gen (upstream_calls w + (N - 1)) prompt = Resolved r ->
exists ws : list Q,
  generateWithRetry gen prompt retries delay w
    = (Returned r, mkEffects (upstream_calls w + N) (timers w ++ ws)) /\
  length ws = N - 1 /\
  (forall d0, hd_error ws = Some d0 -> d0 = delay) /\
  (forall i x y, nth_error ws i = Some x -> nth_error ws (S i) = Some y ->
                 y = (x * (3 # 2))%Q) /\
  ((0 <= delay)%Q -> nondecreasing ws).
Proof.
intros HN Hle Hbusy Hres.
exists (backoff delay (N - 1)). split; [|split; [|split; [|split]]].
- unfold generateWithRetry.
  rewrite (@attempts_busy_prefix gen prompt retries (N - 1)); [| lia | lia | exact Hbusy].
  destruct (Z.to_nat retries - (N - 1)) as [|left] eqn:E; [lia|].
  cbn [attempts upstream_calls]. rewrite Hres.
  unfold call; cbn [upstream_calls timers]. do 2 f_equal. lia.
- apply backoff_length.
- intros d0. apply backoff_head.
- intros i x y. apply backoff_ratio.
- apply backoff_nondecreasing.
Qed.

Lemma C2_success_on_attempt_3 :
exists ws : list Q,
  generateWithRetry
    (rejects_then_resolves 2 SERVICE_UNAVAILABLE (mkResult js"{}"))
    js"prompt" DEFAULT_RETRIES DEFAULT_DELAY idle
  = (Returned (mkResult js"{}"), mkEffects 3 ws) /\
  ws = [3000 # 1; (3000 # 1) * (3 # 2)]%Q.
Proof.
destruct (@C2_success_on_attempt_N
            (rejects_then_resolves 2 SERVICE_UNAVAILABLE (mkResult js"{}"))
            js"prompt" DEFAULT_RETRIES DEFAULT_DELAY idle 3
            (mkResult js"{}"))
  as (ws & Hrun & _).
- lia.
- unfold DEFAULT_RETRIES. lia.
- intros j Hj. exists SERVICE_UNAVAILABLE.
  destruct j as [|[|j]]; [split; reflexivity | split; reflexivity | simpl in Hj; lia].
- reflexivity.
- exists ws. split; [exact Hrun|].
  vm_compute in Hrun. now injection Hrun.
Defined.

(** C3.  An upstream error is classified retryable exactly when its message
  contains "503" or "overloaded"; and an error whose message contains
  neither, raised by the call that follows [k] retried ones, is rethrown
  at once: that call is the last one made and no wait follows it (for
  [k = 0]: one call, no wait at all). *)
Theorem C3_fatal_error_propagates_immediately
  (gen : Model) (prompt : jsstring) (retries : Z) (delay : Q)
  (w : Effects) (k : nat) (e : JsError) :
(Z.of_nat k < retries)%Z ->
busy_run gen prompt w k ->
gen (upstream_calls w + k) prompt = Rejected e ->
(isBusy e = true <->
   JsString.Occurs js"503" (message e) \/
   JsString.Occurs js"overloaded" (message e)) /\
(~ JsString.Occurs js"503" (message e) ->
 ~ JsString.Occurs js"overloaded" (message e) ->
 generateWithRetry gen prompt retries delay w
   = (Rethrown e,
      mkEffects (upstream_calls w + k + 1) (timers w ++ backoff delay k))).
Proof.
intros Hk Hbusy He.
assert (Hcls : isBusy e = true <->
   JsString.Occurs js"503" (message e) \/
   JsString.Occurs js"overloaded" (message e)).
{ unfold isBusy. rewrite orb_true_iff, !includes_Occurs. reflexivity. }
split; [exact Hcls|].
intros H503 Hov.
assert (Hnb : isBusy e = false).
{ destruct (isBusy e); [|reflexivity]. destruct Hcls as [Hc _].
  destruct (Hc eq_refl); contradiction. }
unfold generateWithRetry.
rewrite (@attempts_busy_prefix gen prompt retries k); [| lia | lia | exact Hbusy].
destruct (Z.to_nat retries - k) as [|left] eqn:E; [lia|].
cbn [attempts upstream_calls]. rewrite He, Hnb. cbn [andb].
unfold call; cbn [upstream_calls timers]. do 2 f_equal. lia.
Qed.

Lemma not_Occurs_of_includes (p s : jsstring) :
JsString.includes s p = false -> ~ JsString.Occurs p s.
Proof.
intros Hf Ho. apply includes_Occurs in Ho. congruence.
Qed.

Lemma C3_bad_request_is_not_retried :
generateWithRetry (always_rejects BAD_REQUEST) js"prompt"
                  DEFAULT_RETRIES DEFAULT_DELAY idle
= (Rethrown BAD_REQUEST, mkEffects 1 []).
Proof.
refine (proj2 (@C3_fatal_error_propagates_immediately
                 (always_rejects BAD_REQUEST) js"prompt"
                 DEFAULT_RETRIES DEFAULT_DELAY idle 0 BAD_REQUEST
                 _ _ _) _ _).
- unfold DEFAULT_RETRIES. lia.
- intros j Hj. inversion Hj.
- reflexivity.
- apply not_Occurs_of_includes. vm_compute. reflexivity.
- apply not_Occurs_of_includes. vm_compute. reflexivity.
Defined.

(** C9.  For every [retries >= 1], a run of [generateWithRetry] ends either
  at line 44 (a result is returned) or at line 54 (an error is rethrown
  inside the loop), never at the throw of line 58 after the loop; in
  particular the last admitted attempt rethrows whatever error it gets,
  retryable or not. *)
Theorem C9_throw_after_loop_unreachable
  (gen : Model) (prompt : jsstring) (retries : Z) (delay : Q) (w : Effects) :
(1 <= retries)%Z ->
let out := fst (generateWithRetry gen prompt retries delay w) in
out <> MaxCapacity /\
((exists r, out = Returned r) \/ (exists e, out = Rethrown e)) /\
(forall e,
   busy_run gen prompt w (Z.to_nat retries - 1) ->
   gen (upstream_calls w + (Z.to_nat retries - 1)) prompt = Rejected e ->
   out = Rethrown e).
Proof.
intros Hr out.
assert (Hne : out <> MaxCapacity).
{ apply attempts_not_MaxCapacity; lia. }
split; [exact Hne|]. split.
- destruct out as [r|e|]; [left; now exists r | right; now exists e | congruence].
- intros e Hbusy He. subst out.
  now rewrite (exhausted_rethrows_last delay Hr Hbusy He).
Qed.

Lemma C9_five_overloads_end_in_the_loop :
fst (generateWithRetry (always_rejects SERVICE_UNAVAILABLE) js"prompt"
                       DEFAULT_RETRIES DEFAULT_DELAY idle)
<> MaxCapacity.
Proof.
refine (proj1 (@C9_throw_after_loop_unreachable
                 (always_rejects SERVICE_UNAVAILABLE) js"prompt"
                 DEFAULT_RETRIES DEFAULT_DELAY idle _)).
unfold DEFAULT_RETRIES. lia.
Defined.

End RetryClaims.

(* --------------------------------------------------------------------- *)
(** ** The handler *)
(* --------------------------------------------------------------------- *)

Section HandlerFacts.
Import Server.

Variable env : Env.

Lemma not_missing (req : Request) b jd :
  file req = Some b -> truthy (jobDescription req) = Some jd ->
  ~ missing_input req.
Proof. intros Hf Hj [H|H]; congruence. Qed.

Lemma bind_unfold {A B} (m : M A) (k : A -> M B) (w : World) :
  bind m k w =
  match m w with
  | (inl a, w1) => k a w1
  | (inr e, w1) => (inr e, w1)
  end.
Proof. reflexivity. Qed.

(** A step of the [try] block that has thrown leaves the table alone. *)
Ltac thrown_step Hnm :=
  unfold throws; cbn [analyses next_id]; repeat split;
  solve [exact Hnm | reflexivity].

Lemma try_block_cases (req : Request) (w : World) :
  match try_block env req w with
  | (inl res, w') => completes env req w res w'
  | (inr e, w') => throws req w e w'
  end.
Proof.
  unfold try_block.
  destruct (file req) as [buffer|] eqn:Hfile;
    [destruct (truthy (jobDescription req)) as [jd|] eqn:Hjd|];
    try (left; unfold missing_input; auto; fail).
  pose proof (not_missing Hfile Hjd) as Hnm.
  (* the text of the document *)
  rewrite bind_unfold. unfold lift.
  destruct (pdf_text env buffer) as [text|e0] eqn:Hp;
    [unfold ret at 1 | unfold throw at 1; thrown_step Hnm].
  (* the reply of the model *)
  rewrite bind_unfold. unfold generateWithRetry at 1.
  destruct (Retry.generateWithRetry (model env) (build_prompt text jd)
              Retry.DEFAULT_RETRIES Retry.DEFAULT_DELAY (effects w))
    as [[r|e1|] fx] eqn:Hg; try thrown_step Hnm.
  (* the analysis parsed from it *)
  rewrite bind_unfold. unfold JSON_parse at 1.
  destruct (Json.parse (strip_fences (JsString.trim (response_text r))))
    as [analysis|] eqn:Hr;
    [unfold ret at 1 | unfold throw at 1; thrown_step Hnm].
  (* the parameters of the INSERT *)
  rewrite bind_unfold. unfold get_score at 1.
  destruct analysis as [|bb|q|str|elems|ms];
    try (unfold throw at 1; thrown_step Hnm);
    unfold ret at 1; rewrite bind_unfold; unfold join_missingKeywords at 1;
    try (unfold throw at 1; thrown_step Hnm).
  destruct (Json.lookup js"missingKeywords" ms) as [[|bb|q|str|xs|ms']|] eqn:Hk;
    try (unfold throw at 1; thrown_step Hnm).
  unfold ret at 1.
  (* the INSERT *)
  rewrite bind_unfold. unfold insert at 1. cbn [effects analyses next_id].
  destruct (insert_error env (title_or_default (jobTitle req))
              (Json.lookup js"score" ms)
              (Json.join (number_to_string env) js", " xs)) as [e2|] eqn:Hdb;
    [thrown_step Hnm|].
  unfold ret. right. unfold succeeded.
  exists buffer, jd, text, r, fx, ms, xs. cbv zeta.
  repeat split; assumption.
Qed.

Lemma on_error_status (e : JsError) : status (on_error e) <> 200%Z.
Proof.
  unfold on_error. destruct (JsString.includes _ _); simpl; discriminate.
Qed.

(** The handler answers 200 exactly when the analysis succeeded. *)
Lemma analyze_200 (req : Request) (w : World) :
  status (fst (analyze env req w)) = 200%Z ->
  succeeded env req w (fst (analyze env req w)) (snd (analyze env req w)).
Proof.
  unfold analyze. pose proof (try_block_cases req w) as H.
  destruct (try_block env req w) as [[res|e] w1]; cbn [fst snd]; intros Hs.
  - destruct H as [(_ & -> & _)|H]; [discriminate Hs | exact H].
  - now apply on_error_status in Hs.
Qed.

Lemma succeeded_status (req : Request) (w : World) res w' :
  succeeded env req w res w' -> status res = 200%Z.
Proof.
  intros (b & jd & t & r & fx & ms & xs & _ & _ & _ & _ & _ & _ & H).
  cbv zeta in H. destruct H as (_ & -> & _). reflexivity.
Qed.

(** Unless the handler answers 200, the table is as it was. *)
Lemma analyze_failure_writes_nothing (req : Request) (w : World) :
  status (fst (analyze env req w)) <> 200%Z ->
  analyses (snd (analyze env req w)) = analyses w.
Proof.
  unfold analyze. pose proof (try_block_cases req w) as H.
  destruct (try_block env req w) as [[res|e] w1]; cbn [fst snd]; intros Hs.
  - destruct H as [(_ & _ & ->)|H]; [reflexivity|].
    now apply succeeded_status in H.
  - now destruct H as (_ & -> & _).
Qed.




End HandlerFacts.

Section HandlerClaims.
Import Server.



(** C10.  When the analysis succeeds, the row written has [job_title]
  'Unknown Role' if the request's [jobTitle] is absent or empty, and the
  [jobTitle] itself, verbatim, otherwise. *)
Theorem C10_job_title_default
  (env : Env) (req : Request) (w : World) :
status (fst (analyze env req w)) = 200%Z ->
exists row,
  analyses (snd (analyze env req w)) = analyses w ++ [row] /\
  job_title row =
    match jobTitle req with
    | None => js"Unknown Role"
    | Some [] => js"Unknown Role"
    | Some (c :: t) => c :: t
    end.
Proof.
intros Hs. apply analyze_200 in Hs.
destruct Hs as (b & jd & t & r & fx & ms & xs & _ & _ & _ & _ & _ & _ & H).
cbv zeta in H. destruct H as (_ & _ & ->). cbn [analyses].
eexists. split; [reflexivity|]. cbn [job_title].
unfold title_or_default, truthy. destruct (jobTitle req) as [[|c s]|]; reflexivity.
Qed.

Lemma C10_title_given_is_stored :
exists row,
  analyses (snd (analyze (Stub.env (Stub.answers Stub.GOOD_REPLY))
                   (mkRequest (Some (Stub.pdf "resume")) (Some js"jd")
                              (Some js"Backend Engineer"))
                   Stub.fresh)) = [row] /\
  job_title row = js"Backend Engineer".
Proof.
destruct (@C10_job_title_default
            (Stub.env (Stub.answers Stub.GOOD_REPLY))
            (mkRequest (Some (Stub.pdf "resume")) (Some js"jd")
                       (Some js"Backend Engineer"))
            Stub.fresh) as (row & Hrows & Htitle).
- vm_compute. reflexivity.
- exists row. split; [exact Hrows | exact Htitle].
Defined.

(** C5 (as stated, refuted).  With the stub collaborators and a model that
  replies with a score of 150 and missing keywords that are no strings,
  the request is answered 200 with that very result, and it is stored. *)
Lemma C5_out_of_range_score_is_returned_and_stored :
let run := analyze (Stub.env (Stub.answers Stub.OUT_OF_RANGE_REPLY))
                   (Stub.request "resume" "jd") Stub.fresh in
exists data,
  fst run = mkResponse 200 (AnalysisBody true 1 data) /\
  Json.parse Stub.OUT_OF_RANGE_REPLY = Some data /\
  well_formed_result data = false /\
  analyses (snd run)
  = [mkRow 1 js"Unknown Role" (Some (Json.Number (150 # 1))) js"1, "].
Proof.
cbv zeta. eexists. repeat split; vm_compute; reflexivity.
Qed.

(** C5 (amended).  An AnalysisResult the pipeline returns is the object
    parsed (lines 115-118) from the reply the model gave to the prompt built
    from the request, in the call that ended the retry loop; its
    [missingKeywords] is a (possibly empty) array of JSON values, and the
    row stored carries the object's [score], whatever it is, as the database
    accepted it. *)
Theorem C5_returned_result_is_the_parsed_reply
    (env : Env) (req : Request) (w : World) :
  status (fst (analyze env req w)) = 200%Z ->
  exists buffer jd text k r fx id ms xs,
    file req = Some buffer /\
    truthy (jobDescription req) = Some jd /\
    pdf_text env buffer = inl text /\
    k < 5 /\
    model env (Retry.upstream_calls (effects w) + k) (build_prompt text jd)
    = Resolved r /\
    Retry.generateWithRetry (model env) (build_prompt text jd)
      Retry.DEFAULT_RETRIES Retry.DEFAULT_DELAY (effects w)
    = (Retry.Returned r, fx) /\
    parse_response (response_text r) = Some (Json.Object ms) /\
    body (fst (analyze env req w)) = AnalysisBody true id (Json.Object ms) /\
    Json.lookup js"missingKeywords" ms = Some (Json.Array xs) /\
    let title := title_or_default (jobTitle req) in
    let score := Json.lookup js"score" ms in
    let skills := Json.join (number_to_string env) js", " xs in
    insert_error env title score skills = None /\
    analyses (snd (analyze env req w))
    = analyses w ++ [mkRow id title score skills].
Proof.
  intros Hs. apply analyze_200 in Hs.
  destruct Hs as (b & jd & t & r & fx & ms & xs
                  & Hf & Hj & Hp & Hg & Hr & Hk & H).
  cbv zeta in H. destruct H as (Hdb & -> & ->).
  destruct (@returned_is_an_answer (model env) (build_prompt t jd)
              Retry.DEFAULT_RETRIES Retry.DEFAULT_DELAY (effects w) r fx Hg)
    as (k & Hk5 & _ & Hans).
  exists b, jd, t, k, r, fx, (next_id w), ms, xs.
  cbv zeta. cbn [body analyses fst snd].
  unfold Retry.DEFAULT_RETRIES in Hk5.
  repeat (split; [solve [assumption | reflexivity | lia]|]).
  reflexivity.
Qed.

Lemma C5_good_reply_is_returned :
  exists id ms xs,
    parse_response Stub.GOOD_REPLY = Some (Json.Object ms) /\
    body (fst (analyze (Stub.env (Stub.answers Stub.GOOD_REPLY))
                       (Stub.request "resume" "jd") Stub.fresh))
    = AnalysisBody true id (Json.Object ms) /\
    Json.lookup js"missingKeywords" ms = Some (Json.Array xs).
Proof.
  destruct (@C5_returned_result_is_the_parsed_reply
              (Stub.env (Stub.answers Stub.GOOD_REPLY))
              (Stub.request "resume" "jd") Stub.fresh)
    as (b & jd & t & k & r & fx & id & ms & xs
        & _ & _ & _ & _ & Hans & _ & Hp & Hb & Hk & _).
  - vm_compute. reflexivity.
  - cbn [Stub.env model Stub.answers] in Hans. injection Hans as <-.
    exists id, ms, xs. auto.
Defined.

End HandlerClaims.

Section StatusClaims.
Import Server.

Variable env : Env.



End StatusClaims.

Section StatusOfTheHandler.
Import Server.


(** The same mismatch the other way round: an upstream that is overloaded
    on every attempt, and says so without a status code, is answered 500. *)
Example overloaded_without_code_is_answered_500 :
  let run := analyze (Stub.env (Retry.always_rejects Stub.OVERLOADED_NO_CODE))
                     (Stub.request "resume" "jd") Stub.fresh in
  Retry.isBusy Stub.OVERLOADED_NO_CODE = true /\
  Retry.upstream_calls (effects (snd run)) = 5 /\
  fst run = FAILED.
Proof.
  cbv zeta. repeat split; vm_compute; reflexivity.
Qed.


End StatusOfTheHandler.

(* --------------------------------------------------------------------- *)
(** ** The scanner and white space *)
(* --------------------------------------------------------------------- *)

Section JsonFacts.
Import Json.

Lemma white_space_cases (c : ascii) :
  JsString.is_white_space c = true ->
  In c (map ascii_of_N [9; 10; 11; 12; 13; 32; 160]%N).
Proof.
  destruct c as [[] [] [] [] [] [] [] []]; intros H;
    try discriminate H; cbn [map In]; tauto.
Qed.

Lemma ws_is_white_space (c : ascii) :
  is_ws c = true -> JsString.is_white_space c = true.
Proof.
  destruct c as [[] [] [] [] [] [] [] []]; intros H;
    try discriminate H; reflexivity.
Qed.

(** White space is no part of any token. *)
Lemma white_space_outside_tokens (c : ascii) :
  JsString.is_white_space c = true ->
  (code c =? 34)%N = false /\ (code c =? 92)%N = false /\
  (code c =? 117)%N = false /\ (code c =? 45)%N = false /\
  unescape c = None /\ hex_value c = None /\ punctuation c = None /\
  is_number_char c = false /\ is_lower c = false /\ is_digit c = false.
Proof.
  intros H. apply white_space_cases in H. cbn [map In] in H.
  repeat (destruct H as [<- | H]; [repeat split; reflexivity|]).
  destruct H.
Qed.

(** White space that is not JSON white space (VT, FF, NBSP) is a control
    character or NBSP, and starts no token. *)
Lemma scan_between_stray (toks : list token) (c : ascii) :
  JsString.is_white_space c = true -> is_ws c = false ->
  scan_between toks c = None.
Proof.
  intros H Hws. unfold scan_between. rewrite Hws.
  destruct (white_space_outside_tokens _ H)
    as (-> & _ & _ & -> & _ & _ & -> & _ & -> & ->).
  reflexivity.
Qed.

Lemma scan_all_app (s u : jsstring) :
  forall sc,
    scan_all sc (s ++ u) =
    match scan_all sc s with
    | Some sc' => scan_all sc' u
    | None => None
    end.
Proof.
  induction s as [|c s IH]; intros sc; [reflexivity|].
  cbn [app scan_all]. destruct (scan sc c); [apply IH | reflexivity].
Qed.

(** One code unit of JSON white space does not change what the text read so
    far amounts to. *)
Lemma scan_ws_step (sc : scanner) (c : ascii) :
  is_ws c = true -> finish (scan sc c) = scan_end sc.
Proof.
  intros Hws.
  destruct (white_space_outside_tokens _ (ws_is_white_space _ Hws))
    as (Hq & Hb & Hu & _ & Hesc & Hhex & _ & Hnum & Hlow & _).
  destruct sc as [toks [|acc|acc|acc hex|lexeme|letters]];
    cbn [scan scan_end finish].
  - unfold scan_between. rewrite Hws. reflexivity.
  - rewrite Hq, Hb. destruct (is_control c); reflexivity.
  - now rewrite Hu, Hesc.
  - now rewrite Hhex.
  - rewrite Hnum. destruct (number_of (rev lexeme)); [|reflexivity].
    unfold scan_between. rewrite Hws. reflexivity.
  - rewrite Hlow. destruct (word_of (rev letters)); [|reflexivity].
    unfold scan_between. rewrite Hws. reflexivity.
Qed.

Lemma scan_ws_trailing (u : jsstring) :
  Forall (fun c => is_ws c = true) u ->
  forall sc, finish (scan_all sc u) = scan_end sc.
Proof.
  induction 1 as [|c u Hc _ IH]; intros sc; [reflexivity|].
  cbn [scan_all]. rewrite <- (@scan_ws_step sc c Hc).
  destruct (scan sc c) as [sc'|]; [apply IH | reflexivity].
Qed.

Lemma scan_ws_leading (u s : jsstring) :
  Forall (fun c => is_ws c = true) u ->
  scan_all start (u ++ s) = scan_all start s.
Proof.
  induction 1 as [|c u Hc _ IH]; [reflexivity|].
  cbn [app scan_all]. unfold start at 1. cbn [scan]. unfold scan_between.
  rewrite Hc. exact IH.
Qed.

(** [JSON.parse] ignores JSON white space around the text. *)
Lemma parse_ignores_ws (a s b : jsstring) :
  Forall (fun c => is_ws c = true) a ->
  Forall (fun c => is_ws c = true) b ->
  parse (a ++ s ++ b) = parse s.
Proof.
  intros Ha Hb. unfold parse, tokenize.
  rewrite (@scan_ws_leading a (s ++ b) Ha), scan_all_app.
  destruct (scan_all start s) as [sc|]; [|reflexivity].
  now rewrite (@scan_ws_trailing b Hb sc).
Qed.

(** *** Valid JSON has no other white space around it *)

Lemma scan_stray_leading (u s : jsstring) :
  Forall (fun c => JsString.is_white_space c = true) u ->
  scan_all start (u ++ s) <> None ->
  Forall (fun c => is_ws c = true) u.
Proof.
  induction 1 as [|c u Hc _ IH]; intros Hs; [constructor|].
  cbn [app scan_all] in Hs. unfold start at 1 in Hs. cbn [scan] in Hs.
  destruct (is_ws c) eqn:Hws.
  - constructor; [exact Hws|]. apply IH.
    unfold scan_between in Hs. now rewrite Hws in Hs.
  - now rewrite (scan_between_stray [] c Hc Hws) in Hs.
Qed.

(** White space never closes a string. *)
Lemma stuck_in_string (u : jsstring) :
  Forall (fun c => JsString.is_white_space c = true) u ->
  forall toks acc, finish (scan_all (toks, InString acc) u) = None.
Proof.
  induction 1 as [|c u Hc _ IH]; intros toks acc; [reflexivity|].
  cbn [scan_all scan].
  destruct (white_space_outside_tokens _ Hc) as (-> & -> & _).
  destruct (is_control c); [reflexivity | apply IH].
Qed.

Lemma scan_stray_step (sc : scanner) (c : ascii) (u : jsstring) :
  JsString.is_white_space c = true -> is_ws c = false ->
  Forall (fun c => JsString.is_white_space c = true) u ->
  finish (scan_all sc (c :: u)) = None.
Proof.
  intros Hc Hws Hu.
  destruct (white_space_outside_tokens _ Hc)
    as (Hq & Hb & Hu' & _ & Hesc & Hhex & _ & Hnum & Hlow & _).
  pose proof (fun toks => scan_between_stray toks c Hc Hws) as Hstray.
  destruct sc as [toks [|acc|acc|acc hex|lexeme|letters]]; cbn [scan_all scan].
  - now rewrite Hstray.
  - rewrite Hq, Hb. destruct (is_control c); [reflexivity|].
    now apply stuck_in_string.
  - now rewrite Hu', Hesc.
  - now rewrite Hhex.
  - rewrite Hnum. destruct (number_of (rev lexeme)); [|reflexivity].
    now rewrite Hstray.
  - rewrite Hlow. destruct (word_of (rev letters)); [|reflexivity].
    now rewrite Hstray.
Qed.

Lemma scan_stray_trailing (u : jsstring) :
  Forall (fun c => JsString.is_white_space c = true) u ->
  forall sc, finish (scan_all sc u) <> None ->
             Forall (fun c => is_ws c = true) u.
Proof.
  induction 1 as [|c u Hc Hu IH]; intros sc Hs; [constructor|].
  destruct (is_ws c) eqn:Hws.
  - constructor; [exact Hws|].
    cbn [scan_all] in Hs. destruct (scan sc c) as [sc'|]; [|now destruct Hs].
    exact (IH sc' Hs).
  - now rewrite (@scan_stray_step sc c u Hc Hws Hu) in Hs.
Qed.

(** The white space [trim] would strip from a valid JSON text is JSON
    white space. *)
Lemma valid_json_white_space (a s b : jsstring) (v : value) :
  Forall (fun c => JsString.is_white_space c = true) a ->
  Forall (fun c => JsString.is_white_space c = true) b ->
  parse (a ++ s ++ b) = Some v ->
  Forall (fun c => is_ws c = true) a /\ Forall (fun c => is_ws c = true) b.
Proof.
  intros Ha Hb Hv. unfold parse, tokenize in Hv.
  assert (Hfin : finish (scan_all start (a ++ s ++ b)) <> None)
    by (destruct (finish (scan_all start (a ++ s ++ b))); congruence).
  split.
  - apply (@scan_stray_leading a (s ++ b) Ha).
    destruct (scan_all start (a ++ s ++ b)); [discriminate | now destruct Hfin].
  - rewrite app_assoc, scan_all_app in Hfin.
    destruct (scan_all start (a ++ s)) as [sc|]; [|now destruct Hfin].
    exact (@scan_stray_trailing b Hb sc Hfin).
Qed.

End JsonFacts.

(* --------------------------------------------------------------------- *)
(** ** Code fences around the reply *)
(* --------------------------------------------------------------------- *)

Section Fences.
Import Server.

Local Abbreviation white u := (Forall (fun c => JsString.is_white_space c = true) u).
Local Abbreviation json_white u := (Forall (fun c => Json.is_ws c = true) u).

Lemma strip_fences_unfold (x : jsstring) :
  strip_fences x =
  JsString.remove_all tick [tick; tick]
    (JsString.remove_all tick (tick :: tick :: js"json") x).
Proof. reflexivity. Qed.

Lemma white_not_in_markers (u : jsstring) :
  white u ->
  Forall (fun c => c <> tick) u /\
  ~ In (JsString.pattern_last tick [tick; tick]) u /\
  ~ In (JsString.pattern_last tick (tick :: tick :: js"json")) u.
Proof.
  induction 1 as [|c u Hc _ (IH1 & IH2 & IH3)].
  - repeat split; [constructor | intros [] | intros []].
  - apply white_space_cases in Hc. cbn [map In] in Hc.
    repeat split.
    + constructor; [|exact IH1].
      repeat (destruct Hc as [<- | Hc]; [discriminate|]). destruct Hc.
    + intros [E|E]; [|now apply IH2]. subst c.
      repeat (destruct Hc as [Hc | Hc]; [discriminate Hc|]). destruct Hc.
    + intros [E|E]; [|now apply IH3]. subst c.
      repeat (destruct Hc as [Hc | Hc]; [discriminate Hc|]). destruct Hc.
Qed.

(** White space around the text stays where it is. *)
Lemma strip_fences_white_space (a s b : jsstring) :
  white a -> white b ->
  strip_fences (a ++ s ++ b) = a ++ strip_fences s ++ b.
Proof.
  intros Ha Hb.
  destruct (white_not_in_markers Ha) as (Ha1 & _ & _).
  destruct (white_not_in_markers Hb) as (_ & Hb2 & Hb3).
  rewrite !strip_fences_unfold.
  rewrite (@remove_all_keep_prefix tick _ a (s ++ b) Ha1).
  rewrite (@remove_all_keep_suffix tick _ s b Hb3).
  rewrite (@remove_all_keep_prefix tick _ a _ Ha1).
  rewrite (@remove_all_keep_suffix tick _ _ b Hb2).
  reflexivity.
Qed.

(** The two passes of line 117 remove the markers of the fence and treat
    what is between them as they treat it on its own. *)
Lemma strip_fences_fenced (ws1 j ws2 : jsstring) :
  strip_fences (fenced ws1 j ws2) = strip_fences (ws1 ++ j ++ ws2).
Proof.
  rewrite !strip_fences_unfold. unfold fenced.
  change (js"```json") with (tick :: (tick :: tick :: js"json")).
  rewrite remove_all_match.
  change (js"```") with [tick; tick; tick].
  replace (ws1 ++ j ++ ws2 ++ [tick; tick; tick])
    with ((ws1 ++ j ++ ws2) ++ [tick; tick; tick])
    by (now rewrite <- !app_assoc).
  rewrite remove_all_keep_suffix.
  - apply remove_all_triple_suffix.
  - cbv. intuition discriminate.
Qed.

Lemma trim_fenced (ws1 j ws2 : jsstring) :
  JsString.trim (fenced ws1 j ws2) = fenced ws1 j ws2.
Proof.
  unfold fenced.
  change (js"```json") with (tick :: (tick :: tick :: js"json")).
  change (js"```") with ([tick; tick] ++ [tick]).
  replace ((tick :: tick :: tick :: js"json")
             ++ ws1 ++ j ++ ws2 ++ [tick; tick] ++ [tick])
    with (tick :: ((tick :: tick :: js"json")
                     ++ ws1 ++ j ++ ws2 ++ [tick; tick]) ++ [tick])
    by (cbn [app]; now rewrite <- !app_assoc).
  apply trim_id; reflexivity.
Qed.



End Fences.

(* --------------------------------------------------------------------- *)
(** ** The prompt *)
(* --------------------------------------------------------------------- *)

Section Prompt.
Import Server.

Lemma firstn_exact {A} (n : nat) (kept rest : list A) :
  length kept = n -> firstn n (kept ++ rest) = kept.
Proof.
  intros <-. rewrite firstn_app, Nat.sub_diag, firstn_all. cbn [firstn].
  apply app_nil_r.
Qed.

(** C8.  The prompt is a function of the extracted text and the job
    description of a fixed shape: a fixed head, the first 25,000 code units
    of the text (nothing of the text beyond them has any influence on the
    prompt), a fixed middle part, the job description verbatim and in full,
    and a fixed tail. *)
Theorem C8_prompt_holds_bounded_resume_and_full_job_description :
  N.of_nat RESUME_LIMIT = 25000%N /\
  exists head middle tail : jsstring,
    forall resumeText jobDescription : jsstring,
      build_prompt resumeText jobDescription
      = head ++ firstn RESUME_LIMIT resumeText
             ++ middle ++ jobDescription ++ tail /\
      length (firstn RESUME_LIMIT resumeText) <= RESUME_LIMIT /\
      (length resumeText <= RESUME_LIMIT ->
       firstn RESUME_LIMIT resumeText = resumeText) /\
      (forall kept rest,
         resumeText = kept ++ rest -> length kept = RESUME_LIMIT ->
         build_prompt resumeText jobDescription
         = build_prompt kept jobDescription).
Proof.
  split; [unfold RESUME_LIMIT; apply N2Nat.id|].
  exists ([nl] ++ indent ++
          js"Act as an expert ATS. Compare the RESUME TEXT to the JOB DESCRIPTION."
          ++ [nl] ++ indent ++ [nl] ++ indent ++ js"RESUME:" ++ [nl] ++ indent).
  exists (js" ... (truncated)" ++ [nl] ++ indent ++ [nl] ++ indent
          ++ js"JOB DESCRIPTION:" ++ [nl] ++ indent).
  exists ([nl] ++ indent ++ [nl] ++ indent
          ++ js"OUTPUT JSON ONLY: { " ++ [dq] ++ js"score" ++ [dq]
          ++ js": 0-100, " ++ [dq] ++ js"missingKeywords" ++ [dq]
          ++ js": [" ++ [dq] ++ js"skill1" ++ [dq] ++ js"], "
          ++ [dq] ++ js"advice" ++ [dq] ++ js": " ++ [dq]
          ++ js"summary" ++ [dq] ++ js" }"
          ++ [nl] ++ indent ++ js"Do not use markdown."
          ++ [nl] ++ js"        ").
  intros resumeText jobDescription.
  split; [|split; [|split]].
  - unfold build_prompt, JsString.substring0.
    rewrite <- !app_assoc. reflexivity.
  - apply firstn_le_length.
  - apply firstn_all2.
  - intros kept rest -> Hlen. unfold build_prompt, JsString.substring0.
    rewrite (firstn_exact kept rest Hlen).
    rewrite <- Hlen, firstn_all. reflexivity.
Qed.

End Prompt.

Section RetryExtras.
Import Retry.

(** X1.  The throw after the loop is reached exactly when [retries] is not
    positive, and then no upstream call is made and no wait awaited: the
    loop body never runs. *)
Theorem X1_nonpositive_retries_fail_without_a_call
    (gen : Model) (prompt : jsstring) (retries : Z) (delay : Q) (w : Effects) :
  (fst (generateWithRetry gen prompt retries delay w) = MaxCapacity
   <-> (retries <= 0)%Z) /\
  ((retries <= 0)%Z ->
   generateWithRetry gen prompt retries delay w = (MaxCapacity, w)).
Proof.
  assert (Hzero : (retries <= 0)%Z ->
                  generateWithRetry gen prompt retries delay w = (MaxCapacity, w)).
  { intros H. unfold generateWithRetry.
    replace (Z.to_nat retries) with 0 by lia. reflexivity. }
  split; [|exact Hzero]. split.
  - intros Hout. destruct (Z_le_gt_dec retries 0) as [H|H]; [exact H|].
    exfalso. revert Hout. apply attempts_not_MaxCapacity; lia.
  - intros H. now rewrite (Hzero H).
Qed.

(** X2.  With [retries >= 1], every run of [generateWithRetry], whatever
    the model does, consists of [k < retries] calls rejected with a
    retryable error, each followed by one wait of the back-off schedule,
    and one more call whose answer ends the run (its result is returned, its
    error rethrown): [k + 1] calls, [k] waits, and no wait after the last
    call. *)
Theorem X2_every_run_is_retries_then_one_settling_call
    (gen : Model) (prompt : jsstring) (retries : Z) (delay : Q) (w : Effects) :
  (1 <= retries)%Z ->
  exists k,
    (Z.of_nat k < retries)%Z /\
    busy_run gen prompt w k /\
    generateWithRetry gen prompt retries delay w
    = (settles (gen (upstream_calls w + k) prompt),
       mkEffects (upstream_calls w + k + 1) (timers w ++ backoff delay k)).
Proof.
  intros Hr. unfold generateWithRetry.
  destruct (@attempts_shape gen prompt retries (Z.to_nat retries) 0%Z delay w)
    as (k & Hk & Hbusy & Hrun); [lia | lia |].
  exists k. repeat split; [lia | exact Hbusy | exact Hrun].
Qed.

Lemma X2_two_overloads_then_a_bad_request :
  exists k,
    (Z.of_nat k < 5)%Z /\
    fst (generateWithRetry
           (fun n _ => if n <? 2 then Rejected SERVICE_UNAVAILABLE
                       else Rejected BAD_REQUEST)
           js"prompt" DEFAULT_RETRIES DEFAULT_DELAY idle)
    = settles ((fun n (_ : jsstring) =>
                  if n <? 2 then Rejected SERVICE_UNAVAILABLE
                  else Rejected BAD_REQUEST) (0 + k) js"prompt").
Proof.
  destruct (@X2_every_run_is_retries_then_one_settling_call
              (fun n _ => if n <? 2 then Rejected SERVICE_UNAVAILABLE
                          else Rejected BAD_REQUEST)
              js"prompt" DEFAULT_RETRIES DEFAULT_DELAY idle)
    as (k & Hk & _ & Hrun).
  - unfold DEFAULT_RETRIES. lia.
  - exists k. split; [exact Hk|]. now rewrite Hrun.
Defined.

Lemma default_backoff_total (k : nat) :
  k <= 4 -> (total (backoff DEFAULT_DELAY k) <= 24375 # 1)%Q.
Proof.
  intros Hk.
  do 5 (destruct k as [|k]; [vm_compute; discriminate|]). lia.
Qed.

End RetryExtras.

(* --------------------------------------------------------------------- *)
(** ** What a request costs and when the model is called *)
(* --------------------------------------------------------------------- *)

Section HandlerExtras.
Import Server.

Lemma snd_analyze (env : Env) (req : Request) (w : World) :
  snd (analyze env req w) = snd (try_block env req w).
Proof.
  unfold analyze. now destruct (try_block env req w) as [[res|e] w'].
Qed.

(** The upstream is touched by line 114 only, and only once the document
    has been read. *)
Lemma analyze_effects (env : Env) (req : Request) (w : World) :
  effects (snd (analyze env req w)) =
  match file req, truthy (jobDescription req) with
  | Some buffer, Some jd =>
      match pdf_text env buffer with
      | inl text =>
          snd (Retry.generateWithRetry (model env) (build_prompt text jd)
                 Retry.DEFAULT_RETRIES Retry.DEFAULT_DELAY (effects w))
      | inr _ => effects w
      end
  | _, _ => effects w
  end.
Proof.
  rewrite snd_analyze. unfold try_block.
  destruct (file req) as [buffer|];
    [destruct (truthy (jobDescription req)) as [jd|]|]; try reflexivity.
  rewrite bind_unfold. unfold lift.
  destruct (pdf_text env buffer) as [text|e0]; [unfold ret at 1 | reflexivity].
  rewrite bind_unfold. unfold generateWithRetry at 1.
  destruct (Retry.generateWithRetry (model env) (build_prompt text jd)
              Retry.DEFAULT_RETRIES Retry.DEFAULT_DELAY (effects w))
    as [[r|e1|] fx]; try reflexivity.
  rewrite bind_unfold. unfold JSON_parse at 1.
  destruct (Json.parse (strip_fences (JsString.trim (response_text r))))
    as [analysis|]; [unfold ret at 1 | reflexivity].
  rewrite bind_unfold. unfold get_score at 1.
  destruct analysis as [|bb|q|str|elems|ms];
    try reflexivity;
    unfold ret at 1; rewrite bind_unfold; unfold join_missingKeywords at 1;
    try reflexivity.
  destruct (Json.lookup js"missingKeywords" ms) as [[|bb|q|str|xs|ms']|];
    try reflexivity.
  unfold ret at 1. rewrite bind_unfold. unfold insert at 1.
  cbn [effects analyses next_id].
  destruct (insert_error env (title_or_default (jobTitle req))
              (Json.lookup js"score" ms)
              (Json.join (number_to_string env) js", " xs)); reflexivity.
Qed.

(** X3.  Whatever the collaborators do, one request makes at most 5
    upstream calls and awaits at most 4 back-off waits, those of the
    schedule that starts at 3000 ms, which add up to at most 24375 ms; the
    waits are one fewer than the calls whenever a call is made. *)
Theorem X3_a_request_costs_at_most_five_calls
    (env : Env) (req : Request) (w : World) :
  let fx := effects w in
  let fx' := effects (snd (analyze env req w)) in
  exists k,
    k <= 4 /\
    Retry.timers fx'
    = Retry.timers fx ++ Retry.backoff Retry.DEFAULT_DELAY k /\
    (Retry.upstream_calls fx' = Retry.upstream_calls fx /\ k = 0 \/
     Retry.upstream_calls fx' = Retry.upstream_calls fx + k + 1) /\
    (Retry.total (Retry.backoff Retry.DEFAULT_DELAY k) <= 24375 # 1)%Q.
Proof.
  intros fx fx'. subst fx fx'. rewrite analyze_effects.
  assert (Hsame : exists k,
             k <= 4 /\
             Retry.timers (effects w)
             = Retry.timers (effects w) ++ Retry.backoff Retry.DEFAULT_DELAY k /\
             (Retry.upstream_calls (effects w) = Retry.upstream_calls (effects w)
              /\ k = 0 \/
              Retry.upstream_calls (effects w)
              = Retry.upstream_calls (effects w) + k + 1) /\
             (Retry.total (Retry.backoff Retry.DEFAULT_DELAY k) <= 24375 # 1)%Q).
  { exists 0. split; [lia|].
    split; [cbn [Retry.backoff]; now rewrite app_nil_r|].
    split; [left; split; reflexivity|]. apply default_backoff_total. lia. }
  destruct (file req) as [buffer|]; [|exact Hsame].
  destruct (truthy (jobDescription req)) as [jd|]; [|exact Hsame].
  destruct (pdf_text env buffer) as [text|e]; [|exact Hsame].
  destruct (@attempts_shape (model env) (build_prompt text jd)
              Retry.DEFAULT_RETRIES (Z.to_nat Retry.DEFAULT_RETRIES) 0%Z
              Retry.DEFAULT_DELAY (effects w))
    as (k & Hk & _ & Hrun);
    [unfold Retry.DEFAULT_RETRIES; lia | unfold Retry.DEFAULT_RETRIES; lia |].
  unfold Retry.generateWithRetry. rewrite Hrun. cbn [snd].
  assert (Hk4 : k <= 4) by (unfold Retry.DEFAULT_RETRIES in Hk; lia).
  exists k. cbn [Retry.timers Retry.upstream_calls].
  split; [exact Hk4|]. split; [reflexivity|].
  split; [now right | now apply default_backoff_total].
Qed.

(** X4.  A document that cannot be read never reaches the model: the
    request is answered from the extraction error alone (503 when its
    message holds "503", 500 otherwise), with no upstream call, no wait and
    no row written. *)
Theorem X4_unreadable_document_never_reaches_the_model
    (env : Env) (req : Request) (w : World)
    (buffer : list Byte.byte) (jd : jsstring) (e : JsError) :
  file req = Some buffer ->
  truthy (jobDescription req) = Some jd ->
  pdf_text env buffer = inr e ->
  analyze env req w = (on_error e, w).
Proof.
  intros Hf Hj Hp.
  unfold analyze, try_block. rewrite Hf, Hj, bind_unfold. unfold lift.
  rewrite Hp. reflexivity.
Qed.

Lemma X4_empty_upload_is_answered_500 :
  analyze (Stub.env (Stub.answers Stub.GOOD_REPLY))
          (mkRequest (Some []) (Some js"jd") None) Stub.fresh
  = (FAILED, Stub.fresh).
Proof.
  exact (@X4_unreadable_document_never_reaches_the_model
           (Stub.env (Stub.answers Stub.GOOD_REPLY))
           (mkRequest (Some []) (Some js"jd") None) Stub.fresh
           [] js"jd" (mkError js"Invalid PDF structure.")
           eq_refl eq_refl eq_refl).
Defined.

(** X5.  A reply that does not parse to an object whose [missingKeywords]
    is an array (no JSON at all, [null], a number, an array, an object
    without the key or with another kind of value under it) is never
    answered 200: the upstream calls have been made, and nothing is
    stored. *)
Theorem X5_reply_without_keyword_array_is_refused
    (env : Env) (req : Request) (w : World)
    (buffer : list Byte.byte) (jd text : jsstring)
    (r : GenerateContentResult) (fx : Retry.Effects) :
  file req = Some buffer ->
  truthy (jobDescription req) = Some jd ->
  pdf_text env buffer = inl text ->
  Retry.generateWithRetry (model env) (build_prompt text jd)
    Retry.DEFAULT_RETRIES Retry.DEFAULT_DELAY (effects w)
  = (Retry.Returned r, fx) ->
  (forall ms xs,
     parse_response (response_text r) = Some (Json.Object ms) ->
     Json.lookup js"missingKeywords" ms <> Some (Json.Array xs)) ->
  status (fst (analyze env req w)) <> 200%Z /\
  analyses (snd (analyze env req w)) = analyses w /\
  effects (snd (analyze env req w)) = fx.
Proof.
  intros Hf Hj Hp Hg Hbad.
  assert (Hne : status (fst (analyze env req w)) <> 200%Z).
  { intros Hs. apply analyze_200 in Hs.
    destruct Hs as (b & jd' & t & r' & fx' & ms & xs
                    & Hf' & Hj' & Hp' & Hg' & Hr & Hk & _).
    rewrite Hf in Hf'. injection Hf' as <-.
    rewrite Hj in Hj'. injection Hj' as <-.
    rewrite Hp in Hp'. injection Hp' as <-.
    rewrite Hg in Hg'. injection Hg' as <- <-.
    exact (Hbad ms xs Hr Hk). }
  split; [exact Hne|]. split.
  - now apply analyze_failure_writes_nothing.
  - rewrite analyze_effects, Hf, Hj, Hp, Hg. reflexivity.
Qed.

Lemma X5_reply_with_score_only_is_refused :
  fst (analyze (Stub.env (Stub.answers (Stub.json "{'score': 85}")))
               (Stub.request "resume" "jd") Stub.fresh)
  = FAILED.
Proof.
  destruct (@X5_reply_without_keyword_array_is_refused
              (Stub.env (Stub.answers (Stub.json "{'score': 85}")))
              (Stub.request "resume" "jd") Stub.fresh
              (Stub.pdf "resume") js"jd" js"resume"
              (mkResult (Stub.json "{'score': 85}"))
              (Retry.mkEffects 1 [])) as (Hs & _ & _).
  - reflexivity.
  - reflexivity.
  - reflexivity.
  - vm_compute. reflexivity.
  - intros ms xs H. vm_compute in H. injection H as <-.
    vm_compute. discriminate.
  - vm_compute. reflexivity.
Defined.



End HandlerExtras.

(* --------------------------------------------------------------------- *)
(** ** What line 117 leaves of the reply *)
(* --------------------------------------------------------------------- *)

Section StripFacts.
Import JsString.

(** Where the pattern does not occur nothing is removed. *)
Lemma remove_all_absent (p0 : ascii) (p' s : t) :
  includes s (p0 :: p') = false -> remove_all p0 p' s = s.
Proof.
  induction s as [|c s IH]; intros H; [apply remove_all_equation_1|].
  cbn [includes] in H. apply orb_false_elim in H as [Hhere Hrest].
  rewrite remove_all_cons, Hhere. f_equal. now apply IH.
Qed.

Lemma Occurs_prefix (p q s : t) : Occurs (p ++ q) s -> Occurs p s.
Proof.
  intros (l & r & ->). exists l, (q ++ r). now rewrite <- app_assoc.
Qed.

Lemma includes_longer (p q s : t) :
  includes s p = false -> includes s (p ++ q) = false.
Proof.
  intros H. destruct (includes s (p ++ q)) eqn:E; [|reflexivity].
  apply includes_Occurs, Occurs_prefix, includes_Occurs in E. congruence.
Qed.

Section Triple.
Variable b : ascii.

Lemma remove_triple_keeps_no_pair (s : t) :
  startsWith [b; b] s = false ->
  startsWith [b; b] (remove_all b [b; b] s) = false.
Proof.
  intros H. destruct s as [|c1 s]; [now rewrite remove_all_equation_1|].
  rewrite remove_all_cons.
  assert (H3 : startsWith [b; b; b] (c1 :: s) = false).
  { cbn [startsWith] in H |- *. destruct (Ascii.eqb b c1); [|reflexivity].
    cbn [andb] in H |- *. destruct s as [|c2 s]; [reflexivity|].
    destruct (Ascii.eqb b c2); [discriminate H | reflexivity]. }
  rewrite H3. cbn [startsWith] in H |- *.
  destruct (Ascii.eqb b c1); [|reflexivity]. cbn [andb] in H |- *.
  destruct s as [|c2 s]; [now rewrite remove_all_equation_1|].
  rewrite remove_all_cons. cbn [startsWith].
  destruct (Ascii.eqb b c2) eqn:E2; [discriminate H|].
  cbn [andb startsWith]. now rewrite E2.
Qed.

Lemma remove_triple_starts_clean (s : t) :
  startsWith [b; b; b] (remove_all b [b; b] s) = false.
Proof.
  remember (length s) as n eqn:Hn. revert s Hn.
  induction n as [n IH] using lt_wf_ind. intros s Hn.
  destruct s as [|c s]; [now rewrite remove_all_equation_1|].
  rewrite remove_all_cons.
  destruct (startsWith [b; b; b] (c :: s)) eqn:E.
  - apply (IH (length (skipn 2 s))); [|reflexivity].
    subst n. cbn [length]. rewrite length_skipn. lia.
  - cbn [startsWith] in E |- *.
    destruct (Ascii.eqb b c); [|reflexivity]. cbn [andb] in E |- *.
    now apply remove_triple_keeps_no_pair.
Qed.

(** After the scan no run of three is left. *)
Lemma remove_triple_leaves_none (s : t) :
  includes (remove_all b [b; b] s) [b; b; b] = false.
Proof.
  remember (length s) as n eqn:Hn. revert s Hn.
  induction n as [n IH] using lt_wf_ind. intros s Hn.
  destruct s as [|c s]; [now rewrite remove_all_equation_1|].
  pose proof (remove_triple_starts_clean (c :: s)) as Hstart.
  rewrite remove_all_cons in Hstart |- *.
  destruct (startsWith [b; b; b] (c :: s)).
  - apply (IH (length (skipn 2 s))); [|reflexivity].
    subst n. cbn [length]. rewrite length_skipn. lia.
  - cbn [includes]. rewrite Hstart. cbn [orb].
    apply (IH (length s)); [subst n; cbn [length]; lia | reflexivity].
Qed.

End Triple.

End StripFacts.

Section FenceExtras.
Import Server.

Local Abbreviation white u := (Forall (fun c => JsString.is_white_space c = true) u).
Local Abbreviation json_white u := (Forall (fun c => Json.is_ws c = true) u).

(** X7.  Whatever the reply, the text handed to [JSON.parse] holds no code
    fence marker any more, and cleaning it again changes nothing. *)
Theorem X7_cleaned_reply_holds_no_fence_marker (x : jsstring) :
  JsString.includes (strip_fences x) js"```" = false /\
  JsString.includes (strip_fences x) js"```json" = false /\
  strip_fences (strip_fences x) = strip_fences x.
Proof.
  assert (H3 : JsString.includes (strip_fences x) js"```" = false).
  { rewrite strip_fences_unfold. apply remove_triple_leaves_none. }
  assert (H7 : JsString.includes (strip_fences x) js"```json" = false).
  { change (js"```json") with (js"```" ++ js"json").
    now apply includes_longer. }
  split; [exact H3|]. split; [exact H7|].
  rewrite (strip_fences_unfold (strip_fences x)).
  rewrite (@remove_all_absent tick (tick :: tick :: js"json") _ H7).
  now apply remove_all_absent.
Qed.

(** What is between the markers, white space included, parses like the
    bare reply. *)
Lemma parse_between_white_space (j ws1 ws2 : jsstring) (v : Json.value) :
  Json.parse j = Some v ->
  json_white ws1 ->
  json_white ws2 ->
  Json.parse (strip_fences (ws1 ++ j ++ ws2)) = parse_response j.
Proof.
  intros Hv H1 H2.
  destruct (trim_split j) as (a & b & Hj & Ha & Hb).
  unfold parse_response.
  remember (JsString.trim j) as core eqn:Hcore.
  assert (Hv' : Json.parse (a ++ core ++ b) = Some v) by now rewrite <- Hj.
  destruct (valid_json_white_space _ Ha Hb Hv') as [Ha' Hb'].
  assert (Hw1 : white ws1)
    by (eapply Forall_impl; [apply ws_is_white_space | exact H1]).
  assert (Hw2 : white ws2)
    by (eapply Forall_impl; [apply ws_is_white_space | exact H2]).
  rewrite Hj.
  replace (ws1 ++ (a ++ core ++ b) ++ ws2)
    with ((ws1 ++ a) ++ core ++ (b ++ ws2))
    by (now rewrite <- !app_assoc).
  rewrite strip_fences_white_space by (apply Forall_app; auto).
  apply parse_ignores_ws; apply Forall_app; auto.
Qed.

Lemma fenced_parse (j ws1 ws2 : jsstring) (v : Json.value) :
  Json.parse j = Some v ->
  json_white ws1 ->
  json_white ws2 ->
  parse_response (fenced ws1 j ws2) = parse_response j.
Proof.
  intros Hv H1 H2. unfold parse_response at 1.
  rewrite trim_fenced, strip_fences_fenced.
  exact (@parse_between_white_space _ _ _ _ Hv H1 H2).
Qed.

(** Three backticks followed by anything but a backtick or a [j] are no
    start of the opening marker. *)
Lemma remove_json_marker_keeps_ticks (c : ascii) (rest : jsstring) :
  c <> tick -> c <> "j"%char ->
  JsString.remove_all tick (tick :: tick :: js"json")
    (tick :: tick :: tick :: c :: rest)
  = tick :: tick :: tick :: c ::
    JsString.remove_all tick (tick :: tick :: js"json") rest.
Proof.
  intros Ht Hjc.
  assert (Et : Ascii.eqb tick c = false) by (apply Ascii.eqb_neq; congruence).
  assert (Ej : Ascii.eqb "j"%char c = false)
    by (apply Ascii.eqb_neq; congruence).
  change (js"json") with ("j"%char :: js"son").
  rewrite remove_all_cons. cbn [JsString.startsWith].
  rewrite !Ascii.eqb_refl, Ej. cbn [andb]. f_equal.
  rewrite remove_all_cons. cbn [JsString.startsWith].
  rewrite !Ascii.eqb_refl, Et. cbn [andb]. f_equal.
  rewrite remove_all_cons. cbn [JsString.startsWith].
  rewrite !Ascii.eqb_refl, Et. cbn [andb]. f_equal.
  rewrite remove_all_cons. cbn [JsString.startsWith].
  rewrite Et. cbn [andb]. reflexivity.
Qed.

Lemma json_white_head (c : ascii) :
  Json.is_ws c = true -> c <> tick /\ c <> "j"%char.
Proof.
  destruct c as [[] [] [] [] [] [] [] []]; intros H;
    try discriminate H; split; discriminate.
Qed.

Lemma strip_fences_bare_fenced (c : ascii) (ws1 j ws2 : jsstring) :
  Json.is_ws c = true ->
  strip_fences (bare_fenced (c :: ws1) j ws2)
  = strip_fences ((c :: ws1) ++ j ++ ws2).
Proof.
  intros Hc. destruct (@json_white_head c Hc) as [Ht Hjc].
  rewrite !strip_fences_unfold. unfold bare_fenced.
  change (js"```") with [tick; tick; tick].
  cbn [app]. rewrite (@remove_json_marker_keeps_ticks c _ Ht Hjc).
  replace (ws1 ++ j ++ ws2 ++ [tick; tick; tick])
    with ((ws1 ++ j ++ ws2) ++ [tick; tick; tick])
    by (now rewrite <- !app_assoc).
  rewrite remove_all_keep_suffix by (cbv; intuition discriminate).
  change (tick :: tick :: tick :: c ::
          JsString.remove_all tick (tick :: tick :: js"json") (ws1 ++ j ++ ws2)
          ++ [tick; tick; tick])
    with ((tick :: [tick; tick]) ++
          (c :: JsString.remove_all tick (tick :: tick :: js"json")
                  (ws1 ++ j ++ ws2)) ++ [tick; tick; tick]).
  rewrite remove_all_match, remove_all_triple_suffix.
  f_equal. rewrite remove_all_cons. cbn [JsString.startsWith].
  assert (Et : Ascii.eqb tick c = false) by (apply Ascii.eqb_neq; congruence).
  now rewrite Et.
Qed.

Lemma trim_bare_fenced (ws1 j ws2 : jsstring) :
  JsString.trim (bare_fenced ws1 j ws2) = bare_fenced ws1 j ws2.
Proof.
  assert (E : bare_fenced ws1 j ws2
              = tick :: ([tick; tick] ++ ws1 ++ j ++ ws2 ++ [tick; tick])
                ++ [tick]).
  { unfold bare_fenced. change (js"```") with [tick; tick; tick].
    cbn [app]. now rewrite <- !app_assoc. }
  rewrite E. apply trim_id; reflexivity.
Qed.

(** X8.  A fence that names no language is stripped as well: for every
    valid JSON text [j], the reply that holds [j] between two bare markers,
    with white space (a line break, say) after the opening one, parses like
    the reply [j] itself. *)
Theorem X8_bare_fence_is_stripped_too
    (j ws1 ws2 : jsstring) (v : Json.value) :
  Json.parse j = Some v ->
  json_white ws1 ->
  ws1 <> [] ->
  json_white ws2 ->
  parse_response (bare_fenced ws1 j ws2) = parse_response j.
Proof.
  intros Hv H1 Hne H2. destruct ws1 as [|c ws1]; [now destruct Hne|].
  unfold parse_response at 1.
  rewrite trim_bare_fenced, strip_fences_bare_fenced
    by (now inversion H1).
  exact (@parse_between_white_space _ _ _ _ Hv H1 H2).
Qed.

Lemma X8_bare_fence_around_good_reply :
  parse_response (bare_fenced [nl] Stub.GOOD_REPLY [nl])
  = parse_response Stub.GOOD_REPLY.
Proof.
  refine (@X8_bare_fence_is_stripped_too
            Stub.GOOD_REPLY [nl] [nl]
            (Json.Object
               [(js"score", Json.Number (85 # 1));
                (js"missingKeywords",
                 Json.Array [Json.String js"Go"; Json.String js"Rust"]);
                (js"advice", Json.String js"Learn Go.")])
            _ _ _ _).
  - vm_compute. reflexivity.
  - repeat constructor.
  - discriminate.
  - repeat constructor.
Defined.

Lemma trimStart_stops (c : ascii) (u v : jsstring) :
  JsString.is_white_space c = false ->
  exists q, JsString.trimStart (u ++ c :: v) = q ++ c :: v.
Proof.
  intros Hc. induction u as [|d u (q & IH)]; cbn [app JsString.trimStart].
  - rewrite Hc. now exists [].
  - destruct (JsString.is_white_space d); [now exists q | now exists (d :: u)].
Qed.

(** [trim] keeps everything up to the last code unit that is no white
    space. *)
Lemma trim_keeps_head (a c : ascii) (u r : jsstring) :
  JsString.is_white_space a = false ->
  JsString.is_white_space c = false ->
  exists r', JsString.trim ((a :: u) ++ c :: r) = (a :: u) ++ c :: r'.
Proof.
  intros Ha Hc. unfold JsString.trim, JsString.trimEnd.
  cbn [app JsString.trimStart]. rewrite Ha.
  change (a :: u ++ c :: r) with ((a :: u) ++ c :: r).
  rewrite rev_app_distr. cbn [rev]. rewrite <- app_assoc. cbn [app].
  destruct (@trimStart_stops c (rev r) (rev u ++ [a]) Hc) as (q & ->).
  exists (rev q). rewrite rev_app_distr. cbn [rev].
  rewrite rev_app_distr, rev_involutive. cbn [rev app].
  now rewrite <- app_assoc.
Qed.

(** X9.  The opening marker is matched in lower case only: a reply that
    opens with three backticks and a language tag whose first code unit is
    neither [j] nor the start of any JSON text (an upper-case letter, as in
    the tag JSON) is never parsed, whatever follows the tag. *)
Theorem X9_fence_with_another_tag_is_not_parsed
    (c : ascii) (rest : jsstring) :
  JsString.is_white_space c = false ->
  c <> tick ->
  c <> "j"%char ->
  Json.scan_between [] c = None ->
  parse_response (js"```" ++ c :: rest) = None.
Proof.
  intros Hw Ht Hjc Hscan. unfold parse_response.
  change (js"```") with (tick :: [tick; tick]).
  destruct (@trim_keeps_head tick c [tick; tick] rest eq_refl Hw) as (r' & ->).
  rewrite strip_fences_unfold. cbn [app].
  rewrite (@remove_json_marker_keeps_ticks c r' Ht Hjc).
  change (tick :: tick :: tick :: c ::
          JsString.remove_all tick (tick :: tick :: js"json") r')
    with ((tick :: [tick; tick]) ++
          c :: JsString.remove_all tick (tick :: tick :: js"json") r').
  rewrite remove_all_match, remove_all_cons. cbn [JsString.startsWith].
  assert (Et : Ascii.eqb tick c = false) by (apply Ascii.eqb_neq; congruence).
  rewrite Et. cbn [andb].
  unfold Json.parse, Json.tokenize. cbn [Json.scan_all].
  unfold Json.start. cbn [Json.scan]. now rewrite Hscan.
Qed.

Lemma X9_upper_case_tag_is_not_parsed :
  parse_response (js"```" ++ "J"%char :: js"SON" ++ [nl]
                    ++ Stub.GOOD_REPLY ++ [nl] ++ js"```") = None.
Proof.
  refine (@X9_fence_with_another_tag_is_not_parsed "J"%char _ _ _ _ _).
  - reflexivity.
  - discriminate.
  - discriminate.
  - reflexivity.
Defined.

(** Two models that always answer, with replies that parse to the same
    analysis, are told apart by nothing the handler does. *)
Lemma analyze_same_parse (env : Env) (req : Request) (w : World)
      (t1 t2 : jsstring) (a : Json.value) :
  parse_response t1 = Some a ->
  parse_response t2 = Some a ->
  analyze (with_model env (Stub.answers t1)) req w
  = analyze (with_model env (Stub.answers t2)) req w.
Proof.
  intros H1 H2. unfold parse_response in H1, H2.
  unfold analyze, try_block.
  destruct (file req) as [buffer|];
    [destruct (truthy (jobDescription req)) as [jd|]|]; try reflexivity.
  unfold bind, lift, generateWithRetry, JSON_parse, ret, throw.
  cbn [with_model pdf_text model syntax_error].
  destruct (pdf_text env buffer) as [text|e0]; [|reflexivity].
  cbv iota beta.
  change (Retry.generateWithRetry (Stub.answers t1) (build_prompt text jd)
            Retry.DEFAULT_RETRIES Retry.DEFAULT_DELAY (effects w))
    with (Retry.Returned (mkResult t1), Retry.call (effects w)).
  change (Retry.generateWithRetry (Stub.answers t2) (build_prompt text jd)
            Retry.DEFAULT_RETRIES Retry.DEFAULT_DELAY (effects w))
    with (Retry.Returned (mkResult t2), Retry.call (effects w)).
  cbv iota beta. cbn [response_text]. rewrite H1, H2. reflexivity.
Qed.

(** X10.  The fence does not show in what the caller gets: when the bare
    reply [j] is valid JSON that the pipeline parses, a model that wraps
    [j] in a code fence leads to the same response, the same row and the
    same effects as a model that answers [j] itself. *)
Theorem X10_fence_is_invisible_to_the_caller
    (env : Env) (req : Request) (w : World)
    (j ws1 ws2 : jsstring) (v a : Json.value) :
  Json.parse j = Some v ->
  json_white ws1 ->
  json_white ws2 ->
  parse_response j = Some a ->
  analyze (with_model env (Stub.answers (fenced ws1 j ws2))) req w
  = analyze (with_model env (Stub.answers j)) req w.
Proof.
  intros Hv H1 H2 Ha.
  apply analyze_same_parse with (a := a); [|exact Ha].
  now rewrite (@fenced_parse j ws1 ws2 v Hv H1 H2).
Qed.

Lemma X10_fenced_good_reply_gives_the_same_answer :
  analyze (with_model (Stub.env (Stub.answers js""))
                      (Stub.answers Stub.FENCED_REPLY))
          (Stub.request "resume" "jd") Stub.fresh
  = analyze (with_model (Stub.env (Stub.answers js""))
                        (Stub.answers Stub.GOOD_REPLY))
            (Stub.request "resume" "jd") Stub.fresh.
Proof.
  refine (@X10_fence_is_invisible_to_the_caller
            (Stub.env (Stub.answers js"")) (Stub.request "resume" "jd")
            Stub.fresh Stub.GOOD_REPLY [nl] [nl]
            (Json.Object
               [(js"score", Json.Number (85 # 1));
                (js"missingKeywords",
                 Json.Array [Json.String js"Go"; Json.String js"Rust"]);
                (js"advice", Json.String js"Learn Go.")])
            (Json.Object
               [(js"score", Json.Number (85 # 1));
                (js"missingKeywords",
                 Json.Array [Json.String js"Go"; Json.String js"Rust"]);
                (js"advice", Json.String js"Learn Go.")])
            _ _ _ _).
  - vm_compute. reflexivity.
  - repeat constructor.
  - repeat constructor.
  - vm_compute. reflexivity.
Defined.

End FenceExtras.

Section PromptSize.
Import Server.

(** X11.  The size of the prompt: 355 code units of instruction, the
    extracted text up to 25,000 code units, and the job description in
    full; so the document contributes at most 25,000 code units whatever
    its length, and the job description is not bounded at all. *)
Theorem X11_prompt_size (resumeText jobDescription : jsstring) :
  N.of_nat (length (build_prompt resumeText jobDescription))
  = (355 + N.min (N.of_nat (length resumeText)) 25000
     + N.of_nat (length jobDescription))%N.
Proof.
  unfold build_prompt, JsString.substring0.
  repeat rewrite length_app. rewrite length_firstn.
  change (length [nl]) with 1. change (length [dq]) with 1.
  change (length indent) with 12.
  repeat match goal with
         | |- context [length (js ?s)] =>
             let n := eval vm_compute in (length (js s)) in
             change (length (js s)) with n
         end.
  rewrite !Nat2N.inj_add, Nat2N.inj_min.
  unfold RESUME_LIMIT. rewrite N2Nat.id.
  rewrite (N.min_comm 25000). cbn [N.of_nat Pos.of_succ_nat Pos.succ]. lia.
Qed.

End PromptSize.
